(** * Transaction crafting of counterpartyd (lib/bitcoin.py)

    A shallow embedding of the Base58Check codec, the wire primitives, the
    coin selector, the serialiser and the transaction builder of
    [lib/bitcoin.py].  Bytes are [list Z] (each entry in [0, 256)), Python
    [str] values are [string]s, and the calls the code makes to bitcoind
    are recorded in an event trace threaded through a small state/error
    monad. *)

From Stdlib Require Import ZArith List String Ascii Bool Lia.
Import ListNotations.
Open Scope Z_scope.
Open Scope list_scope.

(** ** SHA-256 (hashlib.sha256), on byte lists *)

Module Sha256.

Definition w32 (x : Z) : Z := Z.land x (2 ^ 32 - 1).
Definition rotr (x : Z) (n : Z) : Z :=
  Z.lor (Z.shiftr x n) (w32 (Z.shiftl x (32 - n))).
Definition add32 (xs : list Z) : Z := w32 (fold_right Z.add 0 xs).

Definition ch (x y z : Z) : Z := Z.lxor (Z.land x y) (Z.land (Z.lxor x (2 ^ 32 - 1)) z).
Definition maj (x y z : Z) : Z := Z.lxor (Z.lxor (Z.land x y) (Z.land x z)) (Z.land y z).
Definition bsig0 (x : Z) : Z := Z.lxor (Z.lxor (rotr x 2) (rotr x 13)) (rotr x 22).
Definition bsig1 (x : Z) : Z := Z.lxor (Z.lxor (rotr x 6) (rotr x 11)) (rotr x 25).
Definition ssig0 (x : Z) : Z := Z.lxor (Z.lxor (rotr x 7) (rotr x 18)) (Z.shiftr x 3).
Definition ssig1 (x : Z) : Z := Z.lxor (Z.lxor (rotr x 17) (rotr x 19)) (Z.shiftr x 10).

Definition K : list Z :=
  [1116352408; 1899447441; 3049323471; 3921009573; 961987163; 1508970993; 2453635748; 2870763221;
   3624381080; 310598401; 607225278; 1426881987; 1925078388; 2162078206; 2614888103; 3248222580;
   3835390401; 4022224774; 264347078; 604807628; 770255983; 1249150122; 1555081692; 1996064986;
   2554220882; 2821834349; 2952996808; 3210313671; 3336571891; 3584528711; 113926993; 338241895;
   666307205; 773529912; 1294757372; 1396182291; 1695183700; 1986661051; 2177026350; 2456956037;
   2730485921; 2820302411; 3259730800; 3345764771; 3516065817; 3600352804; 4094571909; 275423344;
   430227734; 506948616; 659060556; 883997877; 958139571; 1322822218; 1537002063; 1747873779;
   1955562222; 2024104815; 2227730452; 2361852424; 2428436474; 2756734187; 3204031479; 3329325298].

Definition H0 : list Z :=
  [0x6a09e667; 0xbb67ae85; 0x3c6ef372; 0xa54ff53a; 0x510e527f; 0x9b05688c; 0x1f83d9ab; 0x5be0cd19].

(** Big-endian 32-bit words of a byte list (List.length a multiple of 4). *)
Fixpoint words (bs : list Z) : list Z :=
  match bs with
  | b0 :: b1 :: b2 :: b3 :: rest =>
      (b0 * 2 ^ 24 + b1 * 2 ^ 16 + b2 * 2 ^ 8 + b3) :: words rest
  | _ => []
  end.

Definition word_bytes (w : Z) : list Z :=
  [Z.land (Z.shiftr w 24) 255; Z.land (Z.shiftr w 16) 255;
   Z.land (Z.shiftr w 8) 255; Z.land w 255].

(** The message schedule, built from the 16 block words (kept reversed). *)
Fixpoint schedule_rev (n : nat) (acc : list Z) : list Z :=
  match n with
  | O => acc
  | S n' =>
      let w t := nth t acc 0 in
      schedule_rev n' (add32 [ssig1 (w 1%nat); w 6%nat; ssig0 (w 14%nat); w 15%nat] :: acc)
  end.

Definition schedule (block_words : list Z) : list Z :=
  rev (schedule_rev 48 (rev block_words)).

Definition round (st : list Z) (kw : Z * Z) : list Z :=
  match st with
  | [a; b; c; d; e; f; g; h] =>
      let t1 := add32 [h; bsig1 e; ch e f g; fst kw; snd kw] in
      let t2 := add32 [bsig0 a; maj a b c] in
      [add32 [t1; t2]; a; b; c; add32 [d; t1]; e; f; g]
  | _ => st
  end.

Definition compress (h : list Z) (block : list Z) : list Z :=
  let st := fold_left round (combine K (schedule (words block))) h in
  map (fun p => add32 [fst p; snd p]) (combine h st).

Fixpoint process (fuel : nat) (h : list Z) (msg : list Z) : list Z :=
  match fuel with
  | O => h
  | S f =>
      match msg with
      | [] => h
      | _ => process f (compress h (firstn 64 msg)) (skipn 64 msg)
      end
  end.

Definition pad (msg : list Z) : list Z :=
  let l := Z.of_nat (List.length msg) in
  let k := (55 - l) mod 64 in
  msg ++ [128] ++ List.repeat 0 (Z.to_nat k) ++
  flat_map (fun i => [Z.land (Z.shiftr (l * 8) (8 * (7 - i))) 255]) [0; 1; 2; 3; 4; 5; 6; 7].

Definition sha256 (msg : list Z) : list Z :=
  let p := pad msg in
  flat_map word_bytes (process (List.length p) H0 p).

End Sha256.

(** [dhash = lambda x: sha256(sha256(x).digest()).digest()] *)
Definition dhash (x : list Z) : list Z := Sha256.sha256 (Sha256.sha256 x).

(** ** Exceptions raised along the build path *)

Inductive exn : Type :=
| InvalidBase58Error                  (* exceptions.InvalidBase58Error *)
| VersionByteError                    (* exceptions.VersionByteError *)
| Base58ChecksumError                 (* exceptions.Base58ChecksumError *)
| InvalidAddressError (addr : string) (* exceptions.InvalidAddressError *)
| TransactionError (msg : string)     (* exceptions.TransactionError *)
| BalanceError (source : string) (needed : Z)
    (* exceptions.BalanceError('Insufficient bitcoins at address {}. (Need {} BTC.)'),
       formatted from [source] and [needed / config.UNIT] *)
| AssertionError                      (* a failed [assert] *)
| OverflowError                       (* [int.to_bytes] of a value that does not fit *)
| BinasciiError                       (* [binascii.unhexlify] of a malformed hex string *)
| NameError (name : string)           (* an unbound Python name *)
| BitcoindRPCError (network : string)
    (* 'Cannot communicate with Bitcoind. (counterpartyd is set to run on {}, is Bitcoind?)' *)
| BitcoindRPCStatus (code : Z) (reason : string)   (* str(status_code) + ' ' + reason *)
| BitcoindError (msg : string)
| BitcoindErrorTxindex (error : string)   (* '{} Is txindex enabled in Bitcoind?' *)
| BitcoindErrorOther (error : string)     (* '{}'.format(response_json['error']) *)
| IndexError                              (* [params[0]] of empty [params] *)
| RecursionError.                         (* nested [rpc] calls beyond the recursion limit *)

Inductive res (A : Type) : Type :=
| Ok : A -> res A
| Err : exn -> res A.
Arguments Ok {A} _.
Arguments Err {A} _.

Definition list_eqb (a b : list Z) : bool :=
  if list_eq_dec Z.eq_dec a b then true else false.

(** ** Base58Check codec *)

Definition b58_digits : string :=
  "123456789ABCDEFGHJKLMNPQRSTUVWXYZabcdefghijkmnopqrstuvwxyz".

Definition b58_digit (r : Z) : ascii :=
  match String.get (Z.to_nat r) b58_digits with Some c => c | None => "1"%char end.

(** [b58_digits.index(c)], or [None] when [c not in b58_digits]. *)
Fixpoint index_in (c : ascii) (s : string) (i : Z) : option Z :=
  match s with
  | EmptyString => None
  | String c' s' => if Ascii.eqb c c' then Some i else index_in c s' (i + 1)
  end.
Definition b58_index (c : ascii) : option Z := index_in c b58_digits 0.

(** [int('0x0' + hexlify(bs), 16)]: the bytes read big-endian. *)
Definition be_to_Z (bs : list Z) : Z := fold_left (fun n b => n * 256 + b) bs 0.

(** [while n > 0: n, r = divmod(n, 58); res.append(b58_digits[r])], with the
    fuel [1 + log2 n] bounding the iterations. *)
Fixpoint b58_loop (fuel : nat) (n : Z) : list ascii :=
  match fuel with
  | O => []
  | S f => if 0 <? n then b58_digit (n mod 58) :: b58_loop f (n / 58) else []
  end.

(** [for c in d: if c == czero: pad += 1 else: break] *)
Fixpoint leading_zeros (d : list Z) : nat :=
  match d with
  | 0 :: d' => S (leading_zeros d')
  | _ => O
  end.

Definition base58_check_encode (b : list Z) (version : list Z) : string :=
  (* [b] is [binascii.unhexlify(bytes(b, 'utf-8'))], the payload bytes *)
  let d := version ++ b in
  let address_hex := d ++ firstn 4 (dhash d) in
  let n := be_to_Z address_hex in
  let res := rev (b58_loop (S (Z.to_nat (Z.log2 n))) n) in
  let pad := leading_zeros d in
  string_of_list_ascii (List.repeat "1"%char pad ++ res).

(** The loop [for c in s: n *= 58; ...; n += b58_digits.index(c)]; [None]
    is the [InvalidBase58Error] of a character outside the alphabet. *)
Fixpoint decode_int (n : Z) (cs : list ascii) : option Z :=
  match cs with
  | [] => Some n
  | c :: cs' =>
      match b58_index c with
      | None => None
      | Some digit => decode_int (n * 58 + digit) cs'
      end
  end.

(** [h = '%x' % n; if len(h) % 2: h = '0' + h; unhexlify(h)]: the big-endian
    bytes of [n] without leading zeros, and [b'\x00'] for [n = 0]. *)
Fixpoint bytes_be_loop (fuel : nat) (n : Z) (acc : list Z) : list Z :=
  match fuel with
  | O => acc
  | S f => if 0 <? n then bytes_be_loop f (n / 256) (n mod 256 :: acc) else acc
  end.
Definition int_to_bytes_be (n : Z) : list Z :=
  if n =? 0 then [0] else bytes_be_loop (S (Z.to_nat (Z.log2 n))) n [].

(** [for c in s[:-1]: if c == b58_digits[0]: pad += 1 else: break] *)
Fixpoint leading_ones (cs : list ascii) : nat :=
  match cs with
  | c :: cs' => if Ascii.eqb c "1"%char then S (leading_ones cs') else O
  | [] => O
  end.

(** [k = version * pad + res], where [res] comes from the digits of [s];
    [None] when a character is outside the alphabet. *)
Definition base58_decode_bytes (s : string) (version : list Z) : option (list Z) :=
  let cs := list_ascii_of_string s in
  match decode_int 0 cs with
  | None => None
  | Some n =>
      let res := int_to_bytes_be n in
      let pad := leading_ones (removelast cs) in
      Some (List.concat (List.repeat version pad) ++ res)
  end.

(** Python slices [k[0:1]], [k[1:-4]] and [k[-4:]]. *)
Definition slice_addrbyte (k : list Z) : list Z := firstn 1 k.
Definition slice_data (k : list Z) : list Z := firstn (List.length k - 4 - 1) (skipn 1 k).
Definition slice_chk (k : list Z) : list Z := skipn (List.length k - 4) k.

Definition base58_decode (s : string) (version : list Z) : res (list Z) :=
  match base58_decode_bytes s version with
  | None => Err InvalidBase58Error
  | Some k =>
      let addrbyte := slice_addrbyte k in
      let data := slice_data k in
      let chk0 := slice_chk k in
      if negb (list_eqb addrbyte version) then Err VersionByteError
      else
        let chk1 := firstn 4 (dhash (addrbyte ++ data)) in
        if negb (list_eqb chk0 chk1) then Err Base58ChecksumError
        else Ok data
  end.

(** ** Wire primitives *)

(** [n.to_bytes(w, byteorder='little')]; [None] is the [OverflowError] raised
    for a negative value or one that does not fit in [w] bytes. *)
Fixpoint le_bytes (w : nat) (n : Z) : list Z :=
  match w with
  | O => []
  | S w' => n mod 256 :: le_bytes w' (n / 256)
  end.
Definition to_bytes_le (n : Z) (w : nat) : option (list Z) :=
  if (0 <=? n) && (n <? 256 ^ Z.of_nat w) then Some (le_bytes w n) else None.

Definition var_int (i : Z) : option (list Z) :=
  if i <? 0xfd then to_bytes_le i 1
  else if i <=? 0xffff then option_map (fun b => [0xfd] ++ b) (to_bytes_le i 2)
  else if i <=? 0xffffffff then option_map (fun b => [0xfe] ++ b) (to_bytes_le i 4)
  else option_map (fun b => [0xff] ++ b) (to_bytes_le i 8).

Definition op_push (i : Z) : option (list Z) :=
  if i <? 0x4c then to_bytes_le i 1
  else if i <=? 0xff then option_map (fun b => [0x4c] ++ b) (to_bytes_le i 1)
  else if i <=? 0xffff then option_map (fun b => [0x4d] ++ b) (to_bytes_le i 2)
  else option_map (fun b => [0x4e] ++ b) (to_bytes_le i 4).

Definition OP_RETURN : list Z := [0x6a].
Definition OP_DUP : list Z := [0x76].
Definition OP_HASH160 : list Z := [0xa9].
Definition OP_EQUALVERIFY : list Z := [0x88].
Definition OP_CHECKSIG : list Z := [0xac].
Definition OP_1 : list Z := [0x51].
Definition OP_2 : list Z := [0x52].
Definition OP_CHECKMULTISIG : list Z := [0xae].

(** Hex text: [binascii.unhexlify] (partial) and [binascii.hexlify]. *)
Definition hex_val (c : ascii) : option Z :=
  let n := Z.of_nat (nat_of_ascii c) in
  if (48 <=? n) && (n <=? 57) then Some (n - 48)
  else if (97 <=? n) && (n <=? 102) then Some (n - 87)
  else if (65 <=? n) && (n <=? 70) then Some (n - 55)
  else None.

Fixpoint unhexlify_chars (cs : list ascii) : option (list Z) :=
  match cs with
  | [] => Some []
  | [_] => None
  | hi :: lo :: rest =>
      match hex_val hi, hex_val lo, unhexlify_chars rest with
      | Some h, Some l, Some bs => Some ((h * 16 + l) :: bs)
      | _, _, _ => None
      end
  end.
Definition unhexlify (s : string) : option (list Z) := unhexlify_chars (list_ascii_of_string s).

Definition hex_char (d : Z) : ascii :=
  ascii_of_nat (Z.to_nat (if d <? 10 then 48 + d else 87 + d)).
Definition hexlify (bs : list Z) : string :=
  string_of_list_ascii (flat_map (fun b => [hex_char (b / 16); hex_char (b mod 16)]) bs).

(** [str.encode(s)]: the (ASCII) bytes of a string. *)
Definition str_encode (s : string) : list Z :=
  map (fun c => Z.of_nat (nat_of_ascii c)) (list_ascii_of_string s).

(** ** The build monad: errors, and the trace of calls to the outside *)

Inductive event : Type :=
| Rpc (method : string) (params : list string)   (* bitcoin.rpc(method, params) *)
| ReadFile (path : string).                      (* open(...) in unittest mode *)

Definition M (A : Type) : Type := list event -> res A * list event.

Definition ret {A} (a : A) : M A := fun tr => (Ok a, tr).
Definition bind {A B} (m : M A) (k : A -> M B) : M B :=
  fun tr => match m tr with
            | (Ok a, tr') => k a tr'
            | (Err e, tr') => (Err e, tr')
            end.
Definition raise {A} (e : exn) : M A := fun tr => (Err e, tr).
Definition emit (e : event) : M unit := fun tr => (Ok tt, tr ++ [e]).
Definition lift {A} (e : exn) (o : option A) : M A :=
  match o with Some a => ret a | None => raise e end.
Definition lift_res {A} (r : res A) : M A := fun tr => (r, tr).
(** [try: m except Exception: h e] *)
Definition catch {A} (m : M A) (h : exn -> M A) : M A :=
  fun tr => match m tr with
            | (Err e, tr') => h e tr'
            | ok => ok
            end.

Notation "x <- m ;; k" := (bind m (fun x => k))
  (at level 61, m at next level, right associativity).
Notation "m ;;; k" := (bind m (fun _ => k)) (at level 61, right associativity).

Fixpoint mapM {A B} (f : A -> M B) (l : list A) : M (list B) :=
  match l with
  | [] => ret []
  | x :: l' => y <- f x ;; ys <- mapM f l' ;; ret (y :: ys)
  end.

(** ** Configuration, coins and the world outside the process *)

(** The fields of [lib/config.py] the build reads. *)
Record config : Type := {
  UNITTEST_MODE : bool;        (* config.PREFIX == config.UNITTEST_PREFIX *)
  TESTNET : bool;
  ADDRESSVERSION : list Z;
  UNIT : Z;
  REGULAR_DUST_SIZE : Z;
  MULTISIG_DUST_SIZE : Z;
  OP_RETURN_VALUE : Z
}.

(** An entry of [listunspent]; [amount] is the coin's value in units, the
    [round(coin['amount'] * config.UNIT)] that [get_inputs] adds up. *)
Record coin : Type := {
  address : string;
  txid : string;
  vout : Z;
  scriptPubKey : string;
  amount : Z
}.

(** How bitcoind answers one call of [rpc]: [http_status] is [None] when
    [connect] gives up after its tries, and otherwise the status code and
    reason of the response; [rpc_error] is the member ['error'] of the JSON
    body, [None] when it is missing or null, and otherwise its ['code'] and
    its [str].  The result itself, when there is no error, is the field of
    the world for the method called. *)
Record reply : Type := {
  http_status : option (Z * string);
  rpc_error : option (Z * string)
}.

(** An answer that lets the result through: a status of 200 or 500 and no
    error. *)
Definition answers (r : reply) : bool :=
  match http_status r, rpc_error r with
  | Some (code, _), None => (code =? 200) || (code =? 500)
  | _, _ => false
  end.

(** What bitcoind answers, the unit-test fixture file, and pycoin's key
    routines (a library outside this repository). *)
Record world : Type := {
  ismine : string -> bool;              (* rpc('validateaddress', [a])['ismine'] *)
  listunspent : list coin;              (* rpc('listunspent', []) *)
  listunspent_test : list coin;         (* test/listunspent.test.json *)
  dumpprivkey : string -> string;       (* rpc('dumpprivkey', [a]) *)
  pubkey_of_wif : string -> list Z;
    (* wif_to_tuple_of_secret_exponent_compressed, public_pair_for_secret_exponent,
       public_pair_to_sec *)
  pubkey_of_string : string -> list Z;
    (* parse_as_public_pair, public_pair_to_sec(compressed=True) *)
  node : list event -> string -> list string -> reply;
    (* how bitcoind answers [rpc(method, params)] after the calls of the trace *)
  recursion_room : nat
    (* how many nested [rpc] calls the interpreter's stack has room for *)
}.

Inductive multisig_arg : Type :=
| MsFalse                   (* multisig=False *)
| MsTrue                    (* multisig=True: key from the wallet *)
| MsPubkey (s : string).    (* multisig given as a public key string *)

(** Python truthiness of [multisig], and [isinstance(multisig, str)]. *)
Definition ms_truthy (m : multisig_arg) : bool :=
  match m with MsFalse => false | MsTrue => true | MsPubkey s => negb (String.eqb s "") end.
Definition ms_is_str (m : multisig_arg) : bool :=
  match m with MsPubkey _ => true | _ => false end.

(** Truthiness of an address argument: [None] and [''] are both modelled by
    the empty string. *)
Definition truthy (s : string) : bool := negb (String.eqb s "").

(** The exceptions [rpc] raises. *)
Definition rpc_failure (e : exn) : bool :=
  match e with
  | BitcoindRPCError _ | BitcoindRPCStatus _ _ | BitcoindError _ | BitcoindErrorTxindex _
  | BitcoindErrorOther _ | IndexError | RecursionError => true
  | _ => false
  end.

(** The trace of the calls made so far. *)
Definition get_trace : M (list event) := fun tr => (Ok tr, tr).

(** [rpc(method, params)] up to the value of [response_json['result']]:
    the call is sent (the event [Rpc method params] stands for the tries of
    [connect], also when none of them gets through), and its answer either
    lets the result through or raises.  On the code -4 the address [params[0]] is looked up with a
    nested [rpc('validateaddress', [address])], whose ['ismine'] picks the
    message.  [fuel] bounds the nesting, as the interpreter's recursion limit
    does. *)
Fixpoint rpc (cfg : config) (w : world) (fuel : nat) (method : string) (params : list string)
  : M unit :=
  match fuel with
  | O => raise RecursionError
  | S f =>
      tr <- get_trace ;;
      emit (Rpc method params) ;;;
      let response := node w tr method params in
      match http_status response with
      | None => raise (BitcoindRPCError (if TESTNET cfg then "testnet" else "mainnet"))
      | Some (status_code, reason) =>
          if negb ((status_code =? 200) || (status_code =? 500))
          then raise (BitcoindRPCStatus status_code reason) else
          match rpc_error response with
          | None => ret tt
          | Some (code, error) =>
              if code =? -5 then raise (BitcoindErrorTxindex error)
              else if code =? -4 then
                match params with
                | [] => raise IndexError
                | address :: _ =>
                    rpc cfg w f "validateaddress" [address] ;;;
                    if ismine w address then raise (BitcoindError "Wallet is locked.")
                    else raise (BitcoindError "Source address not in wallet.")
                end
              else raise (BitcoindErrorOther error)
          end
      end
  end.

(** [rpc('validateaddress', [a])['ismine']] *)
Definition rpc_validateaddress (cfg : config) (w : world) (a : string) : M bool :=
  rpc cfg w (recursion_room w) "validateaddress" [a] ;;; ret (ismine w a).
(** [rpc('listunspent', [])] *)
Definition rpc_listunspent (cfg : config) (w : world) : M (list coin) :=
  rpc cfg w (recursion_room w) "listunspent" [] ;;; ret (listunspent w).
(** [rpc('dumpprivkey', [a])] *)
Definition rpc_dumpprivkey (cfg : config) (w : world) (a : string) : M string :=
  rpc cfg w (recursion_room w) "dumpprivkey" [a] ;;; ret (dumpprivkey w a).

(** ** serialise *)

Section Serialise.
Variable cfg : config.
Variable w : world.

Definition serialise_input (txin : coin) : M (list Z) :=
  txout_hash <- lift BinasciiError (unhexlify (txid txin)) ;;
  txout_index <- lift OverflowError (to_bytes_le (vout txin) 4) ;;
  let script := str_encode (scriptPubKey txin) in
  script_len <- lift OverflowError (var_int (Z.of_nat (List.length script))) ;;
  ret (rev txout_hash ++ txout_index ++ script_len ++ script ++ [255; 255; 255; 255]).

(** The pay-to-address-hash script, [op_push(20)] being the byte [0x14]. *)
Definition p2pkh_script (pubkeyhash : list Z) : list Z :=
  OP_DUP ++ OP_HASH160 ++ [0x14] ++ pubkeyhash ++ OP_EQUALVERIFY ++ OP_CHECKSIG.

(** The destination and the change outputs. *)
Definition address_output (out : string * Z) : M (list Z) :=
  let '(addr, value) := out in
  pubkeyhash <- lift_res (base58_decode addr (ADDRESSVERSION cfg)) ;;
  value_bytes <- lift OverflowError (to_bytes_le value 8) ;;
  let script := p2pkh_script pubkeyhash in
  script_len <- lift OverflowError (var_int (Z.of_nat (List.length script))) ;;
  ret (value_bytes ++ script_len ++ script).

Definition unittest_wif : string := "cPdUqd5EbBWsjcG9xiL1hz8bEyGFiz4SW99maU9JgpL9TEcxUf3j".

(** The source public key of a disguised-multisig output, fetched anew for
    every data chunk. *)
Definition get_source_pubkey (source : string) (multisig : multisig_arg) : M (list Z) :=
  match multisig with
  | MsPubkey s => ret (pubkey_of_string w s)
  | _ =>
      private_key_wif <-
        (if UNITTEST_MODE cfg then ret unittest_wif else rpc_dumpprivkey cfg w source) ;;
      ret (pubkey_of_wif w private_key_wif)
  end.

Definition data_script (source : string) (multisig : multisig_arg) (data_chunk : list Z)
  : M (list Z) :=
  if ms_truthy multisig then
    source_pubkey <- get_source_pubkey source multisig ;;
    let pad_length := 33 - 1 - Z.of_nat (List.length data_chunk) in
    if pad_length <? 0 then raise AssertionError else
    let data_pubkey :=
      [Z.of_nat (List.length data_chunk)] ++ data_chunk ++ List.repeat 0 (Z.to_nat pad_length) in
    p1 <- lift OverflowError (op_push (Z.of_nat (List.length source_pubkey))) ;;
    p2 <- lift OverflowError (op_push (Z.of_nat (List.length data_pubkey))) ;;
    ret (OP_1 ++ p1 ++ source_pubkey ++ p2 ++ data_pubkey ++ OP_2 ++ OP_CHECKMULTISIG)
  else
    p <- lift OverflowError (op_push (Z.of_nat (List.length data_chunk))) ;;
    ret (OP_RETURN ++ p ++ data_chunk).

Definition data_chunk_output (value : Z) (source : string) (multisig : multisig_arg)
  (data_chunk : list Z) : M (list Z) :=
  value_bytes <- lift OverflowError (to_bytes_le value 8) ;;
  script <- data_script source multisig data_chunk ;;
  script_len <- lift OverflowError (var_int (Z.of_nat (List.length script))) ;;
  ret (value_bytes ++ script_len ++ script).

Definition opt_count {A} (o : option A) : Z := match o with Some _ => 1 | None => 0 end.

Definition serialise (inputs : list coin) (destination_output : option (string * Z))
  (data_output : option (list (list Z) * Z)) (change_output : option (string * Z))
  (source : string) (multisig : multisig_arg) : M (list Z) :=
  let version := [1; 0; 0; 0] in
  n_inputs <- lift OverflowError (var_int (Z.of_nat (List.length inputs))) ;;
  ins <- mapM serialise_input inputs ;;
  let data_array := match data_output with Some (arr, _) => arr | None => [] end in
  let n := opt_count destination_output + Z.of_nat (List.length data_array)
           + opt_count change_output in
  n_outputs <- lift OverflowError (var_int n) ;;
  dst <- match destination_output with
         | Some out => address_output out
         | None => ret []
         end ;;
  dat <- match data_output with
         | Some (arr, value) => mapM (data_chunk_output value source multisig) arr
         | None => ret []
         end ;;
  chg <- match change_output with
         | Some out => address_output out
         | None => ret []
         end ;;
  ret (version ++ n_inputs ++ List.concat ins ++ n_outputs ++ dst ++ List.concat dat ++ chg
       ++ [0; 0; 0; 0]).

End Serialise.

(** ** get_inputs *)

(** [for coin in unspent: inputs.append(coin); total_btc_in += ...;
    if total_btc_in >= total_btc_out: return inputs, total_btc_in];
    [None] is the final [return None, None]. *)
Fixpoint select_loop (unspent : list coin) (inputs : list coin) (total_btc_in total_btc_out : Z)
  : option (list coin * Z) :=
  match unspent with
  | [] => None
  | c :: rest =>
      let inputs' := inputs ++ [c] in
      let total' := total_btc_in + amount c in
      if total_btc_out <=? total' then Some (inputs', total')
      else select_loop rest inputs' total' total_btc_out
  end.

(** [unspent = [coin for coin in listunspent if coin['address'] == source]] *)
Definition owned_by (source : string) (listunspent : list coin) : list coin :=
  filter (fun c => String.eqb (address c) source) listunspent.

Definition select_coins (source : string) (listunspent : list coin) (total_btc_out : Z)
  : option (list coin * Z) :=
  select_loop (owned_by source listunspent) [] 0 total_btc_out.

Definition fetch_unspent (cfg : config) (w : world) (source : string) (unittest : bool)
  : M (list coin) :=
  if negb unittest then
    mine <- rpc_validateaddress cfg w source ;;
    if mine then rpc_listunspent cfg w
    else if TESTNET cfg then raise (TransactionError "Blockchain.info does not support testnet.")
    else raise (NameError "address")   (* get_unspent_txouts(address, ...): [address] is unbound *)
  else
    emit (ReadFile "../test/listunspent.test.json") ;;; ret (listunspent_test w).

Definition get_inputs (cfg : config) (w : world) (source : string) (total_btc_out : Z)
  (unittest : bool) : M (option (list coin * Z)) :=
  listunspent <- fetch_unspent cfg w source unittest ;;
  ret (select_coins source listunspent total_btc_out).

(** ** transaction *)

Definition tx_info : Type := (string * string * option Z * Z * list Z)%type.

Section Transaction.
Variable cfg : config.
Variable w : world.

(** [for address in (source, destination): if address: try: base58_decode(...)
    except Exception: raise InvalidAddressError] *)
Definition validate_address (addr : string) : M unit :=
  if truthy addr then
    catch (lift_res (base58_decode addr (ADDRESSVERSION cfg)) ;;; ret tt)
          (fun _ => raise (InvalidAddressError addr))
  else ret tt.

Definition check_in_wallet (source : string) (multisig : multisig_arg) (unittest : bool) : M unit :=
  if negb unittest && negb (ms_is_str multisig) then
    mine <- rpc_validateaddress cfg w source ;;
    if mine then ret tt else raise (InvalidAddressError source)
  else ret tt.

Definition dust_msg : string := "Destination output is below the dust target value.".

(** The dust check and the [assert not btc_amount]; it returns the amount
    paid to the destination (when there is no destination the amount is not
    read afterwards, and [0] stands for it). *)
Definition check_dust (destination : string) (btc_amount : option Z) (multisig : multisig_arg)
  : M Z :=
  if truthy destination then
    let dust := if ms_truthy multisig then MULTISIG_DUST_SIZE cfg else REGULAR_DUST_SIZE cfg in
    let btc_amount := match btc_amount with None => dust | Some a => a end in
    if negb (dust <=? btc_amount) then raise (TransactionError dust_msg) else ret btc_amount
  else
    match btc_amount with
    | Some a => if a =? 0 then ret 0 else raise AssertionError
    | None => ret 0
    end.

(** [for i in range(0, len(l), n): yield l[i:i+n]] *)
Fixpoint chunks_loop (fuel : nat) (l : list Z) (n : nat) : list (list Z) :=
  match fuel with
  | O => []
  | S f => match l with [] => [] | _ => firstn n l :: chunks_loop f (skipn n l) n end
  end.
Definition chunks (l : list Z) (n : nat) : list (list Z) := chunks_loop (List.length l) l n.

Definition divide_data (data : list Z) (multisig : multisig_arg) : M (list (list Z)) :=
  match data with
  | [] => ret []
  | _ =>
      if ms_truthy multisig then ret (chunks data 32)
      else let data_array := chunks data 80 in
           if Nat.eqb (List.length data_array) 1 then ret data_array else raise AssertionError
  end.

Definition data_value_of (multisig : multisig_arg) : Z :=
  if ms_truthy multisig then MULTISIG_DUST_SIZE cfg else OP_RETURN_VALUE cfg.

Definition total_out (fee : Z) (data_array : list (list Z)) (multisig : multisig_arg)
  (destination : string) (btc_amount : Z) : Z :=
  let t := fold_left (fun t _ => t + data_value_of multisig) data_array fee in
  if truthy destination then t + btc_amount else t.

(** Lines 351-401: validation, dust check, chunking and the total to send. *)
Definition transaction_checks (tx : tx_info) (multisig : multisig_arg) (unittest : bool)
  : M (Z * list (list Z) * Z) :=
  let '(source, destination, btc_amount, fee, data) := tx in
  validate_address source ;;;
  validate_address destination ;;;
  check_in_wallet source multisig unittest ;;;
  btc_amount <- check_dust destination btc_amount multisig ;;
  data_array <- divide_data data multisig ;;
  ret (btc_amount, data_array, total_out fee data_array multisig destination btc_amount).

(** Lines 403-420: coin selection, the outputs, and serialisation. *)
Definition transaction_build (tx : tx_info) (multisig : multisig_arg) (unittest : bool)
  (btc_amount : Z) (data_array : list (list Z)) (total_btc_out : Z) : M string :=
  let '(source, destination, _, fee, data) := tx in
  sel <- get_inputs cfg w source total_btc_out unittest ;;
  match sel with
  | None => raise (BalanceError source total_btc_out)
  | Some (inputs, total_btc_in) =>
      let destination_output := if truthy destination then Some (destination, btc_amount) else None in
      let data_output :=
        match data with [] => None | _ => Some (data_array, data_value_of multisig) end in
      let change_amount := total_btc_in - total_btc_out in
      let change_output := if change_amount =? 0 then None else Some (source, change_amount) in
      transaction <- serialise cfg w inputs destination_output data_output change_output
                       source multisig ;;
      ret (hexlify transaction)
  end.

Definition transaction (tx : tx_info) (multisig : multisig_arg) (unittest : bool) : M string :=
  let unittest := if UNITTEST_MODE cfg then true else unittest in
  checked <- transaction_checks tx multisig unittest ;;
  let '(btc_amount, data_array, total_btc_out) := checked in
  transaction_build tx multisig unittest btc_amount data_array total_btc_out.

End Transaction.

(** ** Sample inputs

    config.py is not among the sources: [sample_config] is an illustrative
    mainnet configuration.  [sample_world coins] is a node that answers
    every call, whose wallet owns [addr_src] and lists [coins]. *)

Definition sample_config : config := {|
  UNITTEST_MODE := false; TESTNET := false; ADDRESSVERSION := [0];
  UNIT := 100000000; REGULAR_DUST_SIZE := 5430; MULTISIG_DUST_SIZE := 7800;
  OP_RETURN_VALUE := 0 |}.

Definition addr_src : string := "1111111111111111111114oLvT2".
Definition addr_dst : string := "16L5yRNPTuciSgXGHqYwn9N6NeoKqopAu".

Definition sample_coin (value : Z) : coin := {|
  address := addr_src;
  txid := "0000000000000000000000000000000000000000000000000000000000000001";
  vout := 0; scriptPubKey := "76a914"; amount := value |}.

(** A script string of 300 characters. *)
Definition long_script : string := string_of_list_ascii (List.repeat "a"%char 300).

(** A node that answers every call, with status 200 and no error. *)
Definition reply_ok : reply := {| http_status := Some (200, "OK"%string); rpc_error := None |}.

Definition sample_world (coins : list coin) : world := {|
  ismine := fun a => String.eqb a addr_src;
  listunspent := coins;
  listunspent_test := coins;
  dumpprivkey := fun _ => unittest_wif;
  pubkey_of_wif := fun _ => 2 :: List.repeat 7 32;
  pubkey_of_string := fun _ => 3 :: List.repeat 9 32;
  node := fun _ _ _ => reply_ok;
  recursion_room := 1000 |}.

(** The same wallet, fixture and keys, with another node. *)
Definition with_node (w : world) (n : list event -> string -> list string -> reply) : world := {|
  ismine := ismine w;
  listunspent := listunspent w;
  listunspent_test := listunspent_test w;
  dumpprivkey := dumpprivkey w;
  pubkey_of_wif := pubkey_of_wif w;
  pubkey_of_string := pubkey_of_string w;
  node := n;
  recursion_room := recursion_room w |}.

(** A node that cannot be reached: [connect] gives up. *)
Definition reply_down : reply := {| http_status := None; rpc_error := None |}.

(** An answer with the error code [code] (bitcoind answers errors with the
    status 500). *)
Definition reply_code (code : Z) : reply :=
  {| http_status := Some (500, "Internal Server Error"%string);
     rpc_error := Some (code, "{'code': ..., 'message': ...}"%string) |}.

(** A node whose wallet is locked: [dumpprivkey] gets the code -4, and so
    does [listunspent]. *)
Definition locked_node (tr : list event) (method : string) (params : list string) : reply :=
  if String.eqb method "dumpprivkey" || String.eqb method "listunspent" then reply_code (-4)
  else reply_ok.


(** Sum of the amounts of a list of coins. *)
Definition sum_amounts (l : list coin) : Z := fold_right Z.add 0 (map amount l).

(** A node whose wallet returns the key [wif] for every address; pycoin's key
    derivation is the same function in every such world. *)
Definition keyed_world (wif : string) : world := {|
  ismine := fun a => String.eqb a addr_src;
  listunspent := [];
  listunspent_test := [];
  dumpprivkey := fun _ => wif;
  pubkey_of_wif := fun k => if String.eqb k unittest_wif then 2 :: List.repeat 7 32
                            else 3 :: List.repeat 8 32;
  pubkey_of_string := fun _ => 3 :: List.repeat 9 32;
  node := fun _ _ _ => reply_ok;
  recursion_room := 1000 |}.

(** Two computations that make no call to the outside and give the same
    result, whatever the trace they start from. *)
Definition agree {A} (m1 m2 : M A) : Prop :=
  exists r, forall tr, m1 tr = (r, tr) /\ m2 tr = (r, tr).

(** The calls to the outside that [m] makes, from whatever trace it starts,
    all satisfy [P]: [m] only appends to the trace, and only such calls. *)
Definition emits {A} (P : event -> Prop) (m : M A) : Prop :=
  forall tr, exists new, snd (m tr) = tr ++ new /\ Forall P new.

(** ** get_unspent_txouts: the transaction hash of blockchain.info *)

(** [''.join([h[i:i+2][::-1] for i in range(0, len(h), 2)])]: the characters
    of every pair swapped, a lone last character kept. *)
Fixpoint flip_pairs (cs : list ascii) : list ascii :=
  match cs with
  | a :: b :: t => b :: a :: flip_pairs t
  | t => t
  end.

(** [d['tx_hash'] = d['tx_hash'][::-1]], then the pairs flipped. *)
Definition blockchain_txid (tx_hash : string) : string :=
  string_of_list_ascii (flip_pairs (rev (list_ascii_of_string tx_hash))).

(** ** Readers of the wire formats, to state what the encoders produce *)

(** The value of little-endian bytes. *)
Definition le_value (bs : list Z) : Z := fold_right (fun b acc => b + 256 * acc) 0 bs.

(** Read a [w]-byte little-endian integer off the front of [bs]. *)
Definition read_le (w : nat) (bs : list Z) : option (Z * list Z) :=
  if (w <=? List.length bs)%nat then Some (le_value (firstn w bs), skipn w bs) else None.

(** Bitcoin's variable-length integer (CompactSize), read off the front. *)
Definition read_var_int (bs : list Z) : option (Z * list Z) :=
  match bs with
  | [] => None
  | b :: rest =>
      if b <? 0xfd then Some (b, rest)
      else if b =? 0xfd then read_le 2 rest
      else if b =? 0xfe then read_le 4 rest
      else read_le 8 rest
  end.

(** The length of a script push (direct, OP_PUSHDATA1, 2 or 4), read off
    the front. *)
Definition read_push (bs : list Z) : option (Z * list Z) :=
  match bs with
  | [] => None
  | b :: rest =>
      if b <? 0x4c then Some (b, rest)
      else if b =? 0x4c then read_le 1 rest
      else if b =? 0x4d then read_le 2 rest
      else if b =? 0x4e then read_le 4 rest
      else None
  end.

(** A three-byte data chunk. *)
Definition sample_chunk : list Z := [1; 2; 3].

(** [n] bytes of data. *)
Definition sample_data (n : nat) : list Z := List.repeat 7 n.

(** ** The bitcoind client: [connect], [rpc], [wallet_unlock], [transmit] *)

Module Net.

(** The JSON values bitcoind answers with ([response.json()]); a dict is
    its list of entries, without duplicate keys. *)
#[warnings="-register-all"] Inductive json : Type :=
| JNull
| JBool (b : bool)
| JInt (z : Z)
| JStr (s : string)
| JList (l : list json)
| JDict (kvs : list (string * json)).

(** What [request_session.post] returns: [body] is [None] when the body is
    not JSON, and [response.json()] raises. *)
Record response : Type := {
  status_code : Z;
  reason : string;
  body : option json
}.

Inductive nexn : Type :=
| BitcoindRPCError (network : string)
    (* 'Cannot communicate with Bitcoind. (counterpartyd is set to run on {}, is Bitcoind?)' *)
| BitcoindRPCStatus (code : Z) (reason : string)   (* str(status_code) + ' ' + reason *)
| BitcoindError (msg : string)
| BitcoindErrorTxindex (error : json)   (* '{} Is txindex enabled in Bitcoind?' *)
| BitcoindErrorOther (error : json)     (* '{}'.format(response_json['error']) *)
| KeyError (key : string)
| TypeError                             (* subscript or comparison of the wrong type *)
| AttributeError                        (* [.keys()] of a JSON value that is no dict *)
| IndexError                            (* [params[0]] of empty [params] *)
| JSONDecodeError                       (* [response.json()] of a body that is not JSON *)
| RecursionError.                       (* nested [rpc] calls beyond the recursion limit *)

Inductive nres (A : Type) : Type :=
| NOk : A -> nres A
| NErr : nexn -> nres A.
Arguments NOk {A} _.
Arguments NErr {A} _.

(** What the client does that can be seen from outside. *)
Inductive nevent : Type :=
| Post (method : string) (params : list json)   (* request_session.post(config.BITCOIND_RPC, ...) *)
| CouldNotConnect (try tries : nat)
    (* 'Could not connect to Bitcoind. Sleeping for five seconds. (Try {}/{})' on stderr *)
| Sleep (seconds : nat)                         (* time.sleep *)
| Connected                                     (* 'Successfully connected.' on stderr *)
| Stdout (msg : string)                         (* print *)
| Getpass.                                      (* getpass.getpass(...) *)

(** The number of POST requests sent so far, and the events. *)
Record nstate : Type := {
  posts : nat;
  out : list nevent
}.

Definition N (A : Type) : Type := nstate -> nres A * nstate.

Definition nret {A} (a : A) : N A := fun st => (NOk a, st).
Definition nbind {A B} (m : N A) (k : A -> N B) : N B :=
  fun st => match m st with
            | (NOk a, st') => k a st'
            | (NErr e, st') => (NErr e, st')
            end.
Definition nraise {A} (e : nexn) : N A := fun st => (NErr e, st).
Definition nemit (e : nevent) : N unit :=
  fun st => (NOk tt, {| posts := posts st; out := out st ++ [e] |}).
Definition nlift {A} (r : nres A) : N A := fun st => (r, st).

Notation "'let!' x ':=' m 'in' k" := (nbind m (fun x => k))
  (at level 200, x name, m at level 100, k at level 200).

(** [d[k]] on a JSON value. *)
Fixpoint assoc (k : string) (kvs : list (string * json)) : option json :=
  match kvs with
  | [] => None
  | (k', v) :: rest => if String.eqb k k' then Some v else assoc k rest
  end.

Definition getitem (j : json) (k : string) : nres json :=
  match j with
  | JDict kvs => match assoc k kvs with Some v => NOk v | None => NErr (KeyError k) end
  | _ => NErr TypeError
  end.

(** [k in d.keys()] *)
Definition has_key (j : json) (k : string) : nres bool :=
  match j with
  | JDict kvs => NOk (match assoc k kvs with Some _ => true | None => false end)
  | _ => NErr AttributeError
  end.

(** [k in j] for a string [k]: a key of a dict, an element of a list (only a
    string can equal [k]), a substring of a string. *)
Definition py_in (k : string) (j : json) : nres bool :=
  match j with
  | JDict kvs => NOk (match assoc k kvs with Some _ => true | None => false end)
  | JList l => NOk (existsb (fun x => match x with JStr s => String.eqb s k | _ => false end) l)
  | JStr s => NOk (match String.index 0 k s with Some _ => true | None => false end)
  | _ => NErr TypeError
  end.

(** Python truthiness of a JSON value. *)
Definition truthy_json (j : json) : bool :=
  match j with
  | JNull => false
  | JBool b => b
  | JInt z => negb (z =? 0)
  | JStr s => negb (String.eqb s "")
  | JList l => match l with [] => false | _ => true end
  | JDict kvs => match kvs with [] => false | _ => true end
  end.

(** [j == c] for an integer [c] ([True == 1], [False == 0]). *)
Definition py_eq_int (j : json) (c : Z) : bool :=
  match j with
  | JInt z => z =? c
  | JBool b => (if b then 1 else 0) =? c
  | _ => false
  end.

(** [j > 0] *)
Definition py_gt_zero (j : json) : nres bool :=
  match j with
  | JInt z => NOk (0 <? z)
  | JBool b => NOk b
  | _ => NErr TypeError
  end.

Definition is_null (j : json) : bool := match j with JNull => true | _ => false end.

Definition TRIES : nat := 12.

Section Node.
Variable cfg : config.
(** The answer to the [n]-th POST request of the process ([None]: a
    [requests.exceptions.ConnectionError]). *)
Variable server : nat -> string -> list json -> option response.
(** What the user types at the passphrase prompt. *)
Variable passphrase : string.

Definition post (method : string) (params : list json) : N (option response) :=
  fun st => (NOk (server (posts st) method params),
             {| posts := S (posts st); out := out st ++ [Post method params] |}).

(** [for i in range(TRIES): try: ... return response except ConnectionError: ...]
    from the try [i] on, [fuel] tries left.  The [requests.Session] made on
    the first call is not observable; [server] answers a POST with a
    response or a [ConnectionError], the only exception [connect] catches. *)
Fixpoint connect_loop (fuel i : nat) (method : string) (params : list json)
  : N (option response) :=
  match fuel with
  | O => nret None
  | S f =>
      let! r := post method params in
      match r with
      | Some response =>
          let! _ := (if (0 <? i)%nat then nemit Connected else nret tt) in
          nret (Some response)
      | None =>
          let! _ := nemit (CouldNotConnect (S i) TRIES) in
          let! _ := nemit (Sleep 5) in
          connect_loop f (S i) method params
      end
  end.

Definition connect (method : string) (params : list json) : N (option response) :=
  connect_loop TRIES 0 method params.

(** [rpc(method, params)]; [fuel] bounds the nesting of the calls, as the
    interpreter's recursion limit does. *)
Fixpoint rpc (fuel : nat) (method : string) (params : list json) : N json :=
  match fuel with
  | O => nraise RecursionError
  | S f =>
      let! response := connect method params in
      match response with
      | None => nraise (BitcoindRPCError (if TESTNET cfg then "testnet" else "mainnet"))
      | Some r =>
          if negb ((status_code r =? 200) || (status_code r =? 500))
          then nraise (BitcoindRPCStatus (status_code r) (reason r)) else
          match body r with
          | None => nraise JSONDecodeError
          | Some response_json =>
              let! has := nlift (has_key response_json "error") in
              let! no_error :=
                (if negb has then nret true
                 else let! e := nlift (getitem response_json "error") in nret (is_null e)) in
              if no_error then nlift (getitem response_json "result") else
              let! e := nlift (getitem response_json "error") in
              (* [response_json['error']['code']], read again for the -4 test *)
              let! code := nlift (getitem e "code") in
              if py_eq_int code (-5) then nraise (BitcoindErrorTxindex e)
              else if py_eq_int code (-4) then
                match params with
                | [] => nraise IndexError
                | address :: _ =>
                    let! v := rpc f "validateaddress" [address] in
                    let! mine := nlift (getitem v "ismine") in
                    if truthy_json mine then nraise (BitcoindError "Wallet is locked.")
                    else nraise (BitcoindError "Source address not in wallet.")
                end
              else nraise (BitcoindErrorOther e)
          end
      end
  end.

(** [True] is [Some true], the implicit [return None] is [None]. *)
Definition wallet_unlock (fuel : nat) : N (option bool) :=
  let! getinfo := rpc fuel "getinfo" [] in
  let! has := nlift (py_in "unlocked_until" getinfo) in
  if negb has then nret (Some true) else
  let! u := nlift (getitem getinfo "unlocked_until") in
  let! positive := nlift (py_gt_zero u) in
  if positive then nret (Some true) else
  let! _ := nemit (Stdout "Wallet is locked.") in
  let! _ := nemit Getpass in
  let! _ := nemit (Stdout "Unlocking wallet for 60 seconds.") in
  let! _ := rpc fuel "walletpassphrase" [JStr passphrase; JInt 60] in
  nret None.

(** The implicit [return None] is [None]. *)
Definition transmit (fuel : nat) (unsigned_tx_hex : string) : N (option json) :=
  let! result := rpc fuel "signrawtransaction" [JStr unsigned_tx_hex] in
  let! complete := nlift (getitem result "complete") in
  if truthy_json complete then
    let! signed_tx_hex := nlift (getitem result "hex") in
    let! sent := rpc fuel "sendrawtransaction" [signed_tx_hex] in
    nret (Some sent)
  else nret None.

End Node.

(** The events of a computation, from whatever state it starts, all satisfy
    [P], and it only appends to them. *)
Definition nemits {A} (P : nevent -> Prop) (m : N A) : Prop :=
  forall st, exists new, out (snd (m st)) = out st ++ new /\ Forall P new.

(** A node that refuses the first two connections, then answers every
    request with the result [7]. *)
Definition sample_server (n : nat) (method : string) (params : list json) : option response :=
  if (n <? 2)%nat then None
  else Some {| status_code := 200; reason := "OK";
               body := Some (JDict [("result"%string, JInt 7); ("error"%string, JNull); ("id"%string, JInt 0)]) |}.

(** A node that signs every transaction completely, to the hex [abcd], and
    answers every other request with the result ["txid"]. *)
Definition sample_signer (n : nat) (method : string) (params : list json) : option response :=
  Some {| status_code := 200; reason := "OK";
          body := Some (JDict [("result"%string,
                                if String.eqb method "signrawtransaction"
                                then JDict [("hex"%string, JStr "abcd"); ("complete"%string, JBool true)]
                                else JStr "txid");
                               ("error"%string, JNull)]) |}.

(** The events of [k] failed tries from the try [i] on. *)
Definition failed_tries (method : string) (params : list json) (i k : nat) : list nevent :=
  List.concat (map (fun j => [Post method params; CouldNotConnect (S j) TRIES; Sleep 5]) (seq i k)).

End Net.

(** * Properties *)

(** ** SHA-256: the FIPS 180-2 test vector for "abc" *)

Lemma sha256_abc :
  Sha256.sha256 [97; 98; 99] =
  [186; 120; 22; 191; 143; 1; 207; 234; 65; 65; 64; 222; 93; 174; 34; 35;
   176; 3; 97; 163; 150; 23; 122; 156; 180; 16; 255; 97; 242; 0; 21; 173].
Proof. vm_compute. reflexivity. Qed.

(** ** Base58Check: auxiliary facts *)

Definition byte_range (b : Z) : Prop := 0 <= b < 256.

Lemma list_eqb_refl l : list_eqb l l = true.
Proof. unfold list_eqb. destruct (list_eq_dec Z.eq_dec l l); congruence. Qed.


Lemma b58_table :
  forallb (fun n => match b58_index (b58_digit (Z.of_nat n)) with
                    | Some r => r =? Z.of_nat n
                    | None => false
                    end) (seq 0 58) = true.
Proof. vm_compute. reflexivity. Qed.

Lemma b58_digit_index r : 0 <= r < 58 -> b58_index (b58_digit r) = Some r.
Proof.
  intros Hr. pose proof (proj1 (forallb_forall _ _) b58_table (Z.to_nat r)) as T.
  assert (Hin : In (Z.to_nat r) (seq 0 58)) by (apply in_seq; lia).
  specialize (T Hin). cbv beta in T. rewrite Z2Nat.id in T by lia.
  destruct (b58_index (b58_digit r)); [apply Z.eqb_eq in T; congruence | discriminate].
Qed.

Lemma b58_digit_not_one r : 0 < r < 58 -> b58_digit r <> "1"%char.
Proof.
  intros Hr E. pose proof (b58_digit_index r ltac:(lia)) as I.
  rewrite E in I. vm_compute in I. injection I. lia.
Qed.

Lemma decode_int_app n l1 l2 :
  decode_int n (l1 ++ l2) =
  match decode_int n l1 with Some m => decode_int m l2 | None => None end.
Proof.
  revert n; induction l1 as [|c l1 IH]; intros n; simpl; [reflexivity|].
  destruct (b58_index c); auto.
Qed.

Lemma decode_int_ones k l : decode_int 0 (List.repeat "1"%char k ++ l) = decode_int 0 l.
Proof. induction k; simpl; auto. Qed.

Lemma b58_loop_zero f : b58_loop f 0 = [].
Proof. destruct f; reflexivity. Qed.

Lemma pow_succ_two f : 2 ^ Z.of_nat (S f) = 2 * 2 ^ Z.of_nat f.
Proof. rewrite Nat2Z.inj_succ, Z.pow_succ_r by lia. ring. Qed.

Lemma decode_digits fuel n :
  0 <= n < 2 ^ Z.of_nat fuel -> decode_int 0 (rev (b58_loop fuel n)) = Some n.
Proof.
  revert n; induction fuel as [|f IH]; intros n Hn.
  - simpl in Hn. simpl. f_equal. lia.
  - rewrite pow_succ_two in Hn. simpl b58_loop. destruct (0 <? n) eqn:E.
    + simpl rev. rewrite decode_int_app.
      assert (Hq : 0 <= n / 58 < 2 ^ Z.of_nat f).
      { split; [apply Z.div_pos; lia|]. apply Z.div_lt_upper_bound; lia. }
      rewrite (IH _ Hq). simpl.
      rewrite b58_digit_index by (apply Z.mod_pos_bound; lia).
      f_equal. pose proof (Z.div_mod n 58 ltac:(lia)). lia.
    + apply Z.ltb_ge in E. simpl. f_equal. lia.
Qed.

Lemma b58_loop_head fuel n :
  0 < n < 2 ^ Z.of_nat fuel ->
  exists c rest, rev (b58_loop fuel n) = c :: rest /\ c <> "1"%char.
Proof.
  revert n; induction fuel as [|f IH]; intros n Hn.
  - simpl in Hn. lia.
  - rewrite pow_succ_two in Hn. simpl b58_loop.
    replace (0 <? n) with true by (symmetry; apply Z.ltb_lt; lia). simpl rev.
    destruct (Z.eq_dec (n / 58) 0) as [Hz|Hz].
    + rewrite Hz, b58_loop_zero. simpl. eexists; exists []. split; [reflexivity|].
      apply b58_digit_not_one.
      pose proof (Z.div_mod n 58 ltac:(lia)). pose proof (Z.mod_pos_bound n 58 ltac:(lia)). lia.
    + assert (Hq : 0 < n / 58 < 2 ^ Z.of_nat f).
      { split; [pose proof (Z.div_pos n 58); lia|]. apply Z.div_lt_upper_bound; lia. }
      destruct (IH _ Hq) as (c & rest & E & Hc). rewrite E.
      exists c, (rest ++ [b58_digit (n mod 58)]). split; [reflexivity | exact Hc].
Qed.

Lemma leading_ones_pad k c rest :
  c <> "1"%char -> leading_ones (removelast (List.repeat "1"%char k ++ c :: rest)) = k.
Proof.
  intros Hc. rewrite removelast_app by discriminate.
  assert (H0 : leading_ones (removelast (c :: rest)) = O).
  { destruct rest; [reflexivity|]. simpl.
    destruct (Ascii.eqb c "1"%char) eqn:E; [apply Ascii.eqb_eq in E; contradiction | reflexivity]. }
  generalize dependent (removelast (c :: rest)). intros R HR.
  induction k as [|k IH]; [exact HR|]. simpl. rewrite IH. reflexivity.
Qed.

Lemma fold_be l a :
  fold_left (fun n b => n * 256 + b) l a = a * 256 ^ Z.of_nat (List.length l) + be_to_Z l.
Proof.
  revert a; induction l as [|x l IH]; intros a.
  - unfold be_to_Z. simpl. ring.
  - unfold be_to_Z. cbn [fold_left List.length]. rewrite !IH. rewrite Nat2Z.inj_succ, Z.pow_succ_r by lia. ring.
Qed.

Lemma be_to_Z_cons b l : be_to_Z (b :: l) = b * 256 ^ Z.of_nat (List.length l) + be_to_Z l.
Proof. unfold be_to_Z at 1. simpl. rewrite fold_be. reflexivity. Qed.

Lemma be_to_Z_app l x : be_to_Z (l ++ [x]) = be_to_Z l * 256 + x.
Proof. unfold be_to_Z. rewrite fold_left_app. reflexivity. Qed.

Lemma be_to_Z_zeros k l : be_to_Z (List.repeat 0 k ++ l) = be_to_Z l.
Proof.
  induction k as [|k IH]; [reflexivity|].
  simpl List.repeat. rewrite <- app_comm_cons, be_to_Z_cons, IH. ring.
Qed.

Lemma be_to_Z_range l : Forall byte_range l -> 0 <= be_to_Z l < 256 ^ Z.of_nat (List.length l).
Proof.
  induction l as [|b l IH]; intros H.
  - unfold be_to_Z. cbn. lia.
  - inversion H as [|? ? Hb Hl]; subst. unfold byte_range in Hb.
    specialize (IH Hl). rewrite be_to_Z_cons.
    simpl List.length. rewrite Nat2Z.inj_succ, Z.pow_succ_r by lia.
    set (P := 256 ^ Z.of_nat (List.length l)) in *. nia.
Qed.

Lemma bytes_be_loop_zero f acc : bytes_be_loop f 0 acc = acc.
Proof. destruct f; reflexivity. Qed.

Lemma bytes_be_loop_be l b :
  Forall byte_range l -> 0 < b < 256 ->
  forall fuel acc, (S (List.length l) <= fuel)%nat ->
  bytes_be_loop fuel (be_to_Z (b :: l)) acc = b :: l ++ acc.
Proof.
  intros Hl Hb. induction l as [|x l IH] using rev_ind; intros fuel acc Hf.
  - destruct fuel as [|f]; [lia|].
    replace (be_to_Z [b]) with b by (unfold be_to_Z; simpl; lia).
    simpl bytes_be_loop. replace (0 <? b) with true by (symmetry; apply Z.ltb_lt; lia).
    rewrite Z.div_small, Z.mod_small by lia. rewrite bytes_be_loop_zero. reflexivity.
  - apply Forall_app in Hl. destruct Hl as [Hl Hx]. inversion Hx as [|? ? Hx' _]; subst.
    unfold byte_range in Hx'. rewrite length_app in Hf. simpl in Hf.
    destruct fuel as [|f]; [lia|].
    rewrite app_comm_cons, be_to_Z_app.
    pose proof (be_to_Z_range l Hl) as Hr. rewrite be_to_Z_cons.
    assert (Hp : 1 <= 256 ^ Z.of_nat (List.length l))
      by (pose proof (Z.pow_pos_nonneg 256 (Z.of_nat (List.length l))); lia).
    set (N := b * 256 ^ Z.of_nat (List.length l) + be_to_Z l).
    assert (HN : 0 < N) by (unfold N; nia).
    simpl bytes_be_loop. replace (0 <? N * 256 + x) with true by (symmetry; apply Z.ltb_lt; lia).
    replace ((N * 256 + x) / 256) with N
      by (rewrite Z.div_add_l by lia; rewrite Z.div_small by lia; lia).
    replace ((N * 256 + x) mod 256) with x
      by (rewrite Z.add_comm, Z.mod_add by lia; rewrite Z.mod_small; lia).
    unfold N. rewrite <- be_to_Z_cons. rewrite IH by (auto; lia).
    rewrite <- app_assoc. reflexivity.
Qed.

Lemma int_to_bytes_be_strip k b l :
  Forall byte_range l -> 0 < b < 256 ->
  int_to_bytes_be (be_to_Z (List.repeat 0 k ++ b :: l)) = b :: l.
Proof.
  intros Hl Hb. rewrite be_to_Z_zeros. unfold int_to_bytes_be.
  pose proof (be_to_Z_range l Hl) as Hr. rewrite be_to_Z_cons.
  set (P := 256 ^ Z.of_nat (List.length l)).
  assert (HP : 256 ^ Z.of_nat (List.length l) = 2 ^ (8 * Z.of_nat (List.length l))).
  { rewrite Z.pow_mul_r by lia. reflexivity. }
  assert (Hp : 1 <= P) by (unfold P; rewrite HP; pose proof (Z.pow_pos_nonneg 2 (8 * Z.of_nat (List.length l))); lia).
  replace (b * P + be_to_Z l =? 0) with false by (symmetry; apply Z.eqb_neq; nia).
  unfold P. rewrite <- be_to_Z_cons.
  transitivity (b :: l ++ []); [|now rewrite app_nil_r].
  apply bytes_be_loop_be; auto.
  rewrite be_to_Z_cons. fold P.
  assert (Hlog : 8 * Z.of_nat (List.length l) <= Z.log2 (b * P + be_to_Z l)).
  { rewrite <- (Z.log2_pow2 (8 * Z.of_nat (List.length l))) by lia.
    apply Z.log2_le_mono. rewrite <- HP. fold P. nia. }
  lia.
Qed.

Lemma leading_zeros_split d :
  Exists (fun b => b <> 0) d ->
  exists b rest, d = List.repeat 0 (leading_zeros d) ++ b :: rest /\ b <> 0.
Proof.
  induction d as [|x d IH]; intros H; [inversion H|].
  destruct x as [|p|p].
  - inversion H as [? ? H0|? ? H1]; subst; [congruence|].
    destruct (IH H1) as (b & rest & E & Hb). exists b, rest. simpl. rewrite E at 1. auto.
  - exists (Z.pos p), d. simpl. split; [reflexivity | discriminate].
  - exists (Z.neg p), d. simpl. split; [reflexivity | discriminate].
Qed.

Lemma concat_repeat_zero k : List.concat (List.repeat [0] k) = List.repeat 0 k.
Proof. induction k; simpl; congruence. Qed.

Lemma round_length st kw : List.length st = 8%nat -> List.length (Sha256.round st kw) = 8%nat.
Proof.
  intros H. do 8 (destruct st as [|? st]; [discriminate|]).
  destruct st; [reflexivity | discriminate].
Qed.

Lemma process_length f h m : List.length h = 8%nat -> List.length (Sha256.process f h m) = 8%nat.
Proof.
  revert h m; induction f as [|f IH]; intros h m H; [exact H|].
  simpl. destruct m; [exact H|]. apply IH.
  unfold Sha256.compress. rewrite length_map, length_combine.
  assert (Hst : forall ks st, List.length st = 8%nat ->
                 List.length (fold_left Sha256.round ks st) = 8%nat).
  { induction ks; intros st Hs; simpl; auto using round_length. }
  rewrite Hst by exact H. lia.
Qed.

Lemma word_bytes_range w : Forall byte_range (Sha256.word_bytes w).
Proof.
  assert (R : forall x, byte_range (Z.land x 255)).
  { intros x. change 255 with (Z.ones 8). rewrite Z.land_ones by lia.
    unfold byte_range. pose proof (Z.mod_pos_bound x (2 ^ 8) ltac:(lia)). lia. }
  unfold Sha256.word_bytes. repeat constructor; apply R.
Qed.

Lemma sha256_shape x : List.length (Sha256.sha256 x) = 32%nat /\ Forall byte_range (Sha256.sha256 x).
Proof.
  unfold Sha256.sha256.
  generalize (process_length (List.length (Sha256.pad x)) Sha256.H0 (Sha256.pad x) eq_refl).
  generalize (Sha256.process (List.length (Sha256.pad x)) Sha256.H0 (Sha256.pad x)).
  intros h Hh. split.
  - assert (G : forall l, List.length (flat_map Sha256.word_bytes l) = (4 * List.length l)%nat).
    { induction l; simpl; [reflexivity|]. rewrite IHl. lia. }
    rewrite G, Hh. reflexivity.
  - apply Forall_forall. intros b Hb. apply in_flat_map in Hb. destruct Hb as (w & _ & Hw).
    exact (proj1 (Forall_forall _ _) (word_bytes_range w) b Hw).
Qed.

Lemma checksum_shape d :
  List.length (firstn 4 (dhash d)) = 4%nat /\ Forall byte_range (firstn 4 (dhash d)).
Proof.
  unfold dhash. destruct (sha256_shape (Sha256.sha256 d)) as [L F]. split.
  - rewrite length_firstn, L. reflexivity.
  - rewrite <- (firstn_skipn 4 (Sha256.sha256 (Sha256.sha256 d))) in F.
    apply Forall_app in F. exact (proj1 F).
Qed.

Lemma slices_split v p c :
  List.length c = 4%nat ->
  slice_addrbyte (v :: p ++ c) = [v] /\ slice_data (v :: p ++ c) = p /\
  slice_chk (v :: p ++ c) = c.
Proof.
  intros Hc. unfold slice_addrbyte, slice_data, slice_chk.
  simpl List.length. rewrite length_app, Hc. split; [reflexivity|]. split.
  - simpl skipn. replace (S (List.length p + 4) - 4 - 1)%nat with (List.length p) by lia.
    rewrite firstn_app, firstn_all, Nat.sub_diag. simpl. apply app_nil_r.
  - replace (S (List.length p + 4) - 4)%nat with (S (List.length p)) by lia.
    simpl skipn. rewrite skipn_app, skipn_all, Nat.sub_diag. reflexivity.
Qed.

(** Encoding then decoding gives the payload back whenever the version byte
    and the payload are not all zero bytes: then the leading zero bytes that
    [base58_check_encode] counts in [version + b] are exactly those of the
    whole [version + b + checksum]. *)
Lemma base58_roundtrip_nonzero p v :
  Forall byte_range p -> byte_range v -> Exists (fun b => b <> 0) (v :: p) ->
  base58_decode (base58_check_encode p [v]) [v] = Ok p.
Proof.
  intros Hp Hv Hnz.
  destruct (checksum_shape (v :: p)) as [Hcl Hcr].
  set (c := firstn 4 (dhash (v :: p))) in *.
  destruct (leading_zeros_split (v :: p) Hnz) as (b & rest & Hd & Hb).
  set (k := leading_zeros (v :: p)) in *.
  assert (Hdr : Forall byte_range (v :: p)) by (constructor; auto).
  rewrite Hd in Hdr. apply Forall_app in Hdr. destruct Hdr as [_ Hbr].
  inversion Hbr as [|? ? Hb' Hrest]; subst. unfold byte_range in Hb'.
  assert (Hrc : Forall byte_range (rest ++ c)) by (apply Forall_app; auto).
  assert (Ha : (v :: p) ++ c = List.repeat 0 k ++ b :: rest ++ c).
  { rewrite Hd at 1. rewrite <- app_assoc. reflexivity. }
  unfold base58_check_encode. cbv zeta. change ([v] ++ p) with (v :: p). fold c. fold k.
  rewrite Ha, be_to_Z_zeros.
  set (n := be_to_Z (b :: rest ++ c)).
  assert (Hn : 0 < n < 2 ^ Z.of_nat (S (Z.to_nat (Z.log2 n)))).
  { assert (Hpos : 0 < n).
    { unfold n. rewrite be_to_Z_cons. pose proof (be_to_Z_range _ Hrc).
      pose proof (Z.pow_pos_nonneg 256 (Z.of_nat (List.length (rest ++ c))) ltac:(lia)). nia. }
    split; [exact Hpos|]. rewrite Nat2Z.inj_succ, Z2Nat.id by apply Z.log2_nonneg.
    apply (Z.log2_spec n Hpos). }
  destruct (b58_loop_head _ _ Hn) as (ch & R & HR & Hch).
  unfold base58_decode, base58_decode_bytes. rewrite list_ascii_of_string_of_list_ascii.
  rewrite decode_int_ones, decode_digits by lia.
  pose proof (int_to_bytes_be_strip 0 b (rest ++ c) Hrc ltac:(lia)) as Hs. simpl in Hs.
  fold n in Hs. rewrite Hs. rewrite HR, leading_ones_pad by exact Hch.
  assert (Hk : List.concat (List.repeat [v] k) ++ b :: rest ++ c = (v :: p) ++ c).
  { rewrite Ha. clearbody k. destruct k as [|k'].
    - reflexivity.
    - simpl in Hd. injection Hd as Hv0 _. subst v.
      rewrite concat_repeat_zero. reflexivity. }
  rewrite Hk. change ((v :: p) ++ c) with (v :: p ++ c). cbv zeta.
  destruct (slices_split v p c Hcl) as (E1 & E2 & E3).
  rewrite E1, E2, E3. change (firstn 4 (dhash ([v] ++ p))) with c.
  rewrite !list_eqb_refl. reflexivity.
Qed.

Lemma all_zero_repeat l : Forall (fun b => ~ b <> 0) l -> l = List.repeat 0 (List.length l).
Proof.
  induction l as [|x l IH]; intros H; [reflexivity|].
  inversion H as [|? ? Hx Hl]; subst. simpl. rewrite <- IH by exact Hl.
  f_equal. lia.
Qed.

(** ** C2: Base58Check round trip *)

(** C2 (amended).  For every byte payload [p] and version byte [v] with [p]
    of 20 bytes, or with [v :: p] not all zero, decoding the encoding of
    [(p, v)] under the same version returns [p]; [base58_decode] returns the
    payload alone, not the pair [(payload, version)]. *)
Theorem base58_check_roundtrip p v :
  Forall byte_range p -> byte_range v ->
  (List.length p = 20%nat \/ Exists (fun b => b <> 0) (v :: p)) ->
  base58_decode (base58_check_encode p [v]) [v] = Ok p.
Proof.
  intros Hp Hv Hcase.
  destruct (Exists_dec (fun b => b <> 0) (v :: p)) as [Hnz|Hz].
  { intros x. destruct (Z.eq_dec x 0); [right | left]; lia. }
  - now apply base58_roundtrip_nonzero.
  - destruct Hcase as [H20|Hnz]; [|contradiction].
    apply Forall_Exists_neg in Hz. inversion Hz as [|? ? Hv0 Hp0]; subst.
    assert (v = 0) by lia. subst v.
    rewrite (all_zero_repeat p Hp0), H20. vm_compute. reflexivity.
Qed.

Lemma base58_check_roundtrip_witness :
  base58_decode (base58_check_encode (List.repeat 7 20) [0]) [0] = Ok (List.repeat 7 20).
Proof.
  apply base58_check_roundtrip.
  - apply Forall_forall. intros x Hx. apply repeat_spec in Hx. subst x. unfold byte_range. lia.
  - unfold byte_range. lia.
  - left. reflexivity.
Defined.

(** C2 (counterexample).  Decoding gives the same value for the versions 0
    and 111, so the version is not part of what it returns; and for the
    payload of 192 zero bytes with version 0 the checksum of the zero bytes
    starts with a zero byte that the leading-zero padding does not restore,
    so the round trip fails with a checksum error. *)
Lemma base58_roundtrip_pair_counterexample :
  base58_decode (base58_check_encode (List.repeat 7 20) [0]) [0] = Ok (List.repeat 7 20) /\
  base58_decode (base58_check_encode (List.repeat 7 20) [111]) [111] = Ok (List.repeat 7 20) /\
  base58_decode (base58_check_encode (List.repeat 0 192) [0]) [0] = Err Base58ChecksumError.
Proof. vm_compute. auto. Qed.

(** ** C9: payload length is not checked *)

(** C9.  For every string [s] whose decoded bytes [k] start with the
    expected version byte and end with the first four bytes of the double
    SHA-256 of the preceding bytes, [base58_decode] returns the bytes in
    between, whatever their number. *)
Theorem base58_decode_any_payload_length s v k :
  base58_decode_bytes s [v] = Some k ->
  slice_addrbyte k = [v] ->
  slice_chk k = firstn 4 (dhash ([v] ++ slice_data k)) ->
  base58_decode s [v] = Ok (slice_data k).
Proof.
  intros Hk Ha Hc. unfold base58_decode. rewrite Hk. cbv zeta.
  rewrite Ha, list_eqb_refl. simpl negb. cbv iota.
  rewrite Hc, list_eqb_refl. reflexivity.
Qed.

(** A five-byte payload is accepted and returned. *)
Lemma base58_decode_any_payload_length_witness :
  base58_decode "1kA3B35AUCmV" [0] = Ok [1; 2; 3; 4; 5].
Proof.
  exact (base58_decode_any_payload_length "1kA3B35AUCmV" 0
           [0; 1; 2; 3; 4; 5; 236; 152; 246; 104]
           ltac:(vm_compute; reflexivity) eq_refl ltac:(vm_compute; reflexivity)).
Defined.

(** ** C3: coin selection *)

Lemma sum_amounts_firstn_S u c i :
  sum_amounts (firstn (S i) (c :: u)) = amount c + sum_amounts (firstn i u).
Proof. reflexivity. Qed.

Lemma select_loop_spec t u inputs acc :
  match select_loop u inputs acc t with
  | Some (ins, tot) =>
      exists j, (1 <= j <= List.length u)%nat /\ ins = inputs ++ firstn j u /\
                tot = acc + sum_amounts (firstn j u) /\ t <= tot /\
                forall i, (1 <= i < j)%nat -> acc + sum_amounts (firstn i u) < t
  | None => forall i, (1 <= i <= List.length u)%nat -> acc + sum_amounts (firstn i u) < t
  end.
Proof.
  revert inputs acc; induction u as [|c u IH]; intros inputs acc; simpl select_loop.
  - simpl. intros i Hi. lia.
  - destruct (t <=? acc + amount c) eqn:E.
    + apply Z.leb_le in E. exists 1%nat. simpl List.length. split; [lia|].
      split; [reflexivity|]. unfold sum_amounts; simpl.
      split; [lia|]. split; [lia|]. intros i Hi; lia.
    + apply Z.leb_gt in E. specialize (IH (inputs ++ [c]) (acc + amount c)).
      destruct (select_loop u (inputs ++ [c]) (acc + amount c) t) as [[ins tot]|].
      * destruct IH as (j & Hj & Hins & Htot & Ht & Hlt).
        exists (S j). simpl List.length. split; [lia|].
        split; [rewrite Hins, <- app_assoc; reflexivity|].
        rewrite sum_amounts_firstn_S. split; [lia|]. split; [lia|].
        intros [|i] Hi; [lia|]. rewrite sum_amounts_firstn_S.
        destruct i as [|i]; [simpl; unfold sum_amounts; simpl; lia|].
        specialize (Hlt (S i) ltac:(lia)). lia.
      * intros [|i] Hi; [lia|]. rewrite sum_amounts_firstn_S.
        destruct i as [|i]; [simpl; unfold sum_amounts; simpl; lia|].
        simpl List.length in Hi. specialize (IH (S i) ltac:(lia)). lia.
Qed.

(** C3 (amended).  Coin selection keeps the coins of [listunspent] whose
    address is the source, in their order, and returns the shortest
    non-empty prefix of them whose amounts sum to at least the required
    total, together with that sum; when no non-empty prefix reaches the
    total it returns [None].  The empty prefix is never selected, even when
    the required total is at most 0. *)
Theorem select_coins_first_fit source listunspent total_btc_out :
  let unspent := owned_by source listunspent in
  match select_coins source listunspent total_btc_out with
  | Some (ins, tot) =>
      exists j, (1 <= j <= List.length unspent)%nat /\ ins = firstn j unspent /\
                tot = sum_amounts ins /\ total_btc_out <= tot /\
                forall i, (1 <= i < j)%nat -> sum_amounts (firstn i unspent) < total_btc_out
  | None =>
      forall i, (1 <= i <= List.length unspent)%nat ->
                sum_amounts (firstn i unspent) < total_btc_out
  end.
Proof.
  cbv zeta. unfold select_coins.
  pose proof (select_loop_spec total_btc_out (owned_by source listunspent) [] 0) as H.
  destruct (select_loop (owned_by source listunspent) [] 0 total_btc_out) as [[ins tot]|].
  - destruct H as (j & Hj & Hins & Htot & Ht & Hlt). exists j.
    simpl in Hins. subst ins. split; [exact Hj|]. split; [reflexivity|].
    split; [lia|]. split; [lia|]. intros i Hi. specialize (Hlt i Hi). lia.
  - intros i Hi. specialize (H i Hi). lia.
Qed.

(** C3 (counterexample).  With a required total of 0 the empty prefix of the
    coin list already reaches the total, yet the selector returns the first
    coin. *)
Lemma select_coins_nonempty_prefix :
  sum_amounts (firstn 0 (owned_by addr_src [sample_coin 1])) >= 0 /\
  select_coins addr_src [sample_coin 1] 0 = Some ([sample_coin 1], 1).
Proof. vm_compute. split; [discriminate | reflexivity]. Qed.

(** ** C10: no destination *)

(** C10.  Without a destination, after the address validation and the wallet
    check, a nonzero amount ends the build with a failed [assert]
    ([AssertionError]), while an absent or zero amount goes on to the
    chunking of the data and the building of the transaction, with nothing
    paid to a destination. *)
Theorem transaction_no_destination cfg w source btc_amount fee data multisig unittest tr :
  let unittest' := if UNITTEST_MODE cfg then true else unittest in
  let tx := (source, ""%string, btc_amount, fee, data) in
  let proceed :=
    data_array <- divide_data data multisig ;;
    transaction_build cfg w tx multisig unittest' 0 data_array
      (total_out cfg fee data_array multisig "" 0) in
  transaction cfg w tx multisig unittest tr =
  (validate_address cfg source ;;;
   check_in_wallet cfg w source multisig unittest' ;;;
   match btc_amount with
   | Some a => if a =? 0 then proceed else raise AssertionError
   | None => proceed
   end) tr.
Proof.
  cbv zeta. unfold transaction, transaction_checks, bind.
  destruct (validate_address cfg source tr) as [[u|e] tr1]; [|reflexivity].
  unfold validate_address. change (truthy ""%string) with false. cbv iota. unfold ret.
  destruct (check_in_wallet cfg w source multisig _ tr1) as [[u'|e] tr2]; [|reflexivity].
  unfold check_dust. change (truthy ""%string) with false. cbv iota.
  destruct btc_amount as [a|]; [destruct (a =? 0)|]; unfold ret, raise; [|reflexivity|];
  destruct (divide_data data multisig tr2) as [[arr|e] tr3]; reflexivity.
Qed.

(** ** Lemmas on the steps of [transaction] *)

Lemma validate_address_cases cfg a tr :
  validate_address cfg a tr = (Ok tt, tr) \/
  validate_address cfg a tr = (Err (InvalidAddressError a), tr).
Proof.
  unfold validate_address, catch, bind, lift_res, ret, raise.
  destruct (truthy a); [|left; reflexivity].
  destruct (base58_decode a (ADDRESSVERSION cfg)); [left | right]; reflexivity.
Qed.

(** A call of [rpc] appends the call itself and, after a -4, the nested
    [validateaddress] calls on [params[0]]; it returns the result or raises
    one of its own exceptions. *)
Lemma rpc_spec cfg w fuel (method : string) (params : list string) tr :
  exists r calls, rpc cfg w fuel method params tr = (r, tr ++ calls) /\
    Forall (fun e => e = Rpc method params \/
                     exists a rest, params = a :: rest /\ e = Rpc "validateaddress" [a]) calls /\
    match r with Ok _ => True | Err e => rpc_failure e = true end.
Proof.
  revert method params tr; induction fuel as [|f IH]; intros method params tr.
  { exists (Err RecursionError), []. rewrite app_nil_r. split; [reflexivity|].
    split; [constructor | reflexivity]. }
  cbn [rpc]. unfold bind at 1, get_trace. unfold bind at 1, emit.
  set (tr1 := tr ++ [Rpc method params]).
  assert (Hfst : Forall (fun e => e = Rpc method params \/
                     exists a rest, params = a :: rest /\ e = Rpc "validateaddress" [a])
                   [Rpc method params]) by (constructor; [left; reflexivity | constructor]).
  destruct (http_status (node w tr method params)) as [[status_code reason]|].
  2:{ exists (Err (BitcoindRPCError (if TESTNET cfg then "testnet" else "mainnet"))),
        [Rpc method params]. split; [reflexivity|]. split; [exact Hfst | reflexivity]. }
  destruct (negb ((status_code =? 200) || (status_code =? 500))).
  { exists (Err (BitcoindRPCStatus status_code reason)), [Rpc method params].
    split; [reflexivity|]. split; [exact Hfst | reflexivity]. }
  destruct (rpc_error (node w tr method params)) as [[code error]|].
  2:{ exists (Ok tt), [Rpc method params]. split; [reflexivity|]. split; [exact Hfst | exact I]. }
  destruct (code =? -5).
  { exists (Err (BitcoindErrorTxindex error)), [Rpc method params].
    split; [reflexivity|]. split; [exact Hfst | reflexivity]. }
  destruct (code =? -4).
  2:{ exists (Err (BitcoindErrorOther error)), [Rpc method params].
      split; [reflexivity|]. split; [exact Hfst | reflexivity]. }
  destruct params as [|address rest].
  { exists (Err IndexError), [Rpc method []].
    split; [reflexivity|]. split; [exact Hfst | reflexivity]. }
  unfold bind at 1.
  destruct (IH "validateaddress"%string [address] tr1) as (r & calls & E & F & Hr).
  rewrite E. unfold tr1. rewrite <- app_assoc.
  assert (Hall : Forall (fun e => e = Rpc method (address :: rest) \/
                     exists a rest', address :: rest = a :: rest' /\ e = Rpc "validateaddress" [a])
                   ([Rpc method (address :: rest)] ++ calls)).
  { apply Forall_app. split; [exact Hfst|]. eapply Forall_impl; [|exact F].
    intros e [He | (a & r' & Ha & He)]; right; exists address, rest; split; [reflexivity| |reflexivity|].
    - exact He.
    - injection Ha as -> _. exact He. }
  destruct r as [u|e].
  - destruct (ismine w address).
    + exists (Err (BitcoindError "Wallet is locked.")), ([Rpc method (address :: rest)] ++ calls).
      split; [reflexivity|]. split; [exact Hall | reflexivity].
    + exists (Err (BitcoindError "Source address not in wallet.")),
        ([Rpc method (address :: rest)] ++ calls).
      split; [reflexivity|]. split; [exact Hall | reflexivity].
  - exists (Err e), ([Rpc method (address :: rest)] ++ calls).
    split; [reflexivity|]. split; [exact Hall | exact Hr].
Qed.

(** A call that the node answers gives the result after the one call. *)
Lemma rpc_answered cfg w fuel method params tr :
  fuel <> O -> answers (node w tr method params) = true ->
  rpc cfg w fuel method params tr = (Ok tt, tr ++ [Rpc method params]).
Proof.
  intros Hf Ha. destruct fuel as [|f]; [contradiction|].
  cbn [rpc]. unfold bind, get_trace, emit, ret. unfold answers in Ha.
  destruct (http_status (node w tr method params)) as [[status_code reason]|]; [|discriminate].
  destruct (rpc_error (node w tr method params)) as [[code error]|]; [discriminate|].
  rewrite Ha. reflexivity.
Qed.

Lemma emits_rpc (P : event -> Prop) cfg w fuel method params :
  P (Rpc method params) ->
  (forall a rest, params = a :: rest -> P (Rpc "validateaddress" [a])) ->
  emits P (rpc cfg w fuel method params).
Proof.
  intros H1 H2 tr. destruct (rpc_spec cfg w fuel method params tr) as (r & calls & E & F & _).
  exists calls. rewrite E. split; [reflexivity|].
  eapply Forall_impl; [|exact F]. intros e [-> | (a & rest & Ha & ->)]; [exact H1 | exact (H2 a rest Ha)].
Qed.

(** With a locked wallet, the key lookup of a multisig data chunk makes the
    nested [validateaddress] call and fails with ["Wallet is locked."], and
    the coin listing fails on [params[0]] of its empty [params]. *)
Lemma rpc_locked_wallet_example :
  serialise sample_config (with_node (sample_world []) locked_node) [] None
    (Some ([[1; 2; 3]], 7800)) None addr_src MsTrue []
  = (Err (BitcoindError "Wallet is locked."),
     [Rpc "dumpprivkey" [addr_src]; Rpc "validateaddress" [addr_src]]) /\
  transaction sample_config (with_node (sample_world []) locked_node)
    (addr_src, ""%string, None, 10000, []) MsFalse false []
  = (Err IndexError,
     [Rpc "validateaddress" [addr_src]; Rpc "validateaddress" [addr_src]; Rpc "listunspent" []]).
Proof. vm_compute. split; reflexivity. Qed.

(** The wallet check: when it is made, its calls are [validateaddress] on
    the source, and it passes, fails with [InvalidAddressError], or raises
    what [rpc] raises. *)
Lemma check_in_wallet_spec cfg w source multisig unittest tr :
  exists r calls,
    check_in_wallet cfg w source multisig unittest tr = (r, tr ++ calls) /\
    Forall (fun e => e = Rpc "validateaddress" [source]) calls /\
    (negb unittest && negb (ms_is_str multisig) = false -> r = Ok tt /\ calls = []) /\
    (r = Ok tt \/ r = Err (InvalidAddressError source) \/
     exists e, r = Err e /\ rpc_failure e = true) /\
    (negb unittest && negb (ms_is_str multisig) = true ->
     recursion_room w <> O -> answers (node w tr "validateaddress" [source]) = true ->
     r = (if ismine w source then Ok tt else Err (InvalidAddressError source)) /\
     calls = [Rpc "validateaddress" [source]]).
Proof.
  unfold check_in_wallet. destruct (negb unittest && negb (ms_is_str multisig)).
  2:{ exists (Ok tt), []. rewrite app_nil_r. split; [reflexivity|]. split; [constructor|].
      split; [intros _; split; reflexivity|]. split; [left; reflexivity|]. discriminate. }
  unfold rpc_validateaddress, bind at 1 2.
  destruct (rpc_spec cfg w (recursion_room w) "validateaddress" [source] tr)
    as (r & calls & E & F & Hr).
  assert (F' : Forall (fun e => e = Rpc "validateaddress" [source]) calls).
  { eapply Forall_impl; [|exact F]. intros e [He | (a & rest & Ha & He)]; [exact He|].
    injection Ha as -> _. exact He. }
  pose proof (rpc_answered cfg w (recursion_room w) "validateaddress" [source] tr) as Hans.
  rewrite E. destruct r as [u|e].
  - unfold ret at 1. exists (if ismine w source then Ok tt else Err (InvalidAddressError source)), calls.
    split; [destruct (ismine w source); reflexivity|]. split; [exact F'|].
    split; [discriminate|]. split; [destruct (ismine w source); [left | right; left]; reflexivity|].
    intros _ H1 H2. rewrite E in Hans. specialize (Hans H1 H2). injection Hans as _ Hc.
    apply app_inv_head in Hc. split; [reflexivity | exact Hc].
  - exists (Err e), calls. split; [reflexivity|]. split; [exact F'|].
    split; [discriminate|]. split; [right; right; exists e; split; [reflexivity | exact Hr]|].
    intros _ H1 H2. rewrite E in Hans. specialize (Hans H1 H2). discriminate.
Qed.

Lemma check_dust_below cfg destination a multisig tr :
  truthy destination = true ->
  a < (if ms_truthy multisig then MULTISIG_DUST_SIZE cfg else REGULAR_DUST_SIZE cfg) ->
  check_dust cfg destination (Some a) multisig tr = (Err (TransactionError dust_msg), tr).
Proof.
  intros Hd Ha. unfold check_dust. rewrite Hd.
  destruct (ms_truthy multisig);
    (replace (_ <=? a) with false by (symmetry; apply Z.leb_gt; lia)); reflexivity.
Qed.

Lemma sum_amounts_nonneg l : Forall (fun c => 0 <= amount c) l -> 0 <= sum_amounts l.
Proof.
  induction l as [|c l IH]; intros H; [unfold sum_amounts; simpl; lia|].
  inversion H as [|? ? Hc Hl]; subst. specialize (IH Hl).
  unfold sum_amounts in *; simpl. lia.
Qed.

Lemma sum_amounts_firstn_le l j :
  Forall (fun c => 0 <= amount c) l -> sum_amounts (firstn j l) <= sum_amounts l.
Proof.
  revert j; induction l as [|c l IH]; intros j H; [destruct j; simpl; lia|].
  inversion H as [|? ? Hc Hl]; subst.
  destruct j as [|j]; simpl firstn.
  - pose proof (sum_amounts_nonneg l Hl). unfold sum_amounts in *; simpl. lia.
  - specialize (IH j Hl). unfold sum_amounts in *; simpl. lia.
Qed.

Lemma select_coins_short source l total :
  Forall (fun c => 0 <= amount c) (owned_by source l) ->
  sum_amounts (owned_by source l) < total ->
  select_coins source l total = None.
Proof.
  intros Hn Hs. unfold select_coins.
  pose proof (select_loop_spec total (owned_by source l) [] 0) as H.
  destruct (select_loop (owned_by source l) [] 0 total) as [[ins tot]|]; [|reflexivity].
  destruct H as (j & _ & _ & Htot & Ht & _).
  pose proof (sum_amounts_firstn_le _ j Hn). lia.
Qed.

(** ** C4: the dust check and the calls made before it *)

(** C4 (amended).  A build whose destination is present with an amount below
    the dust floor fails before coin selection.  The only calls to the node
    that can precede the failure are the wallet check [validateaddress] on
    the source and, when the node answers it with the code -4, the nested
    [validateaddress] calls on the source that [rpc] makes; none is made in
    unit-test mode or when [multisig] is a public key string.  It fails with
    the dust [TransactionError], with [InvalidAddressError] when an address
    is invalid or the source is not in the wallet, or with an exception of
    [rpc] when the wallet check's call fails.  When both addresses are valid
    and the wallet check is skipped, or answered with the source in the
    wallet, it fails with the dust error after exactly the wallet check. *)
Theorem dust_failure_before_coin_selection cfg w source destination a fee data multisig
  unittest tr :
  truthy destination = true ->
  a < (if ms_truthy multisig then MULTISIG_DUST_SIZE cfg else REGULAR_DUST_SIZE cfg) ->
  let unittest' := if UNITTEST_MODE cfg then true else unittest in
  let wallet_check := negb unittest' && negb (ms_is_str multisig) in
  let wallet_calls := if wallet_check then [Rpc "validateaddress" [source]] else [] in
  exists e calls,
    transaction cfg w (source, destination, Some a, fee, data) multisig unittest tr
      = (Err e, tr ++ calls) /\
    Forall (fun ev => ev = Rpc "validateaddress" [source]) calls /\
    (wallet_check = false -> calls = []) /\
    (e = InvalidAddressError source \/ e = InvalidAddressError destination \/
     e = TransactionError dust_msg \/ rpc_failure e = true) /\
    (validate_address cfg source tr = (Ok tt, tr) ->
     validate_address cfg destination tr = (Ok tt, tr) ->
     (wallet_check = false \/
      (recursion_room w <> O /\ answers (node w tr "validateaddress" [source]) = true /\
       ismine w source = true)) ->
     e = TransactionError dust_msg /\ calls = wallet_calls).
Proof.
  intros Hd Ha. cbv zeta. unfold transaction, transaction_checks.
  unfold bind at 1 2. unfold bind at 1.
  destruct (validate_address_cases cfg source tr) as [Hs|Hs]; rewrite Hs.
  2:{ exists (InvalidAddressError source), []. rewrite app_nil_r.
      split; [reflexivity|]. split; [constructor|]. split; [reflexivity|].
      split; [left; reflexivity|]. intros H; try rewrite Hs in H; discriminate. }
  unfold bind at 1.
  destruct (validate_address_cases cfg destination tr) as [Hd'|Hd']; rewrite Hd'.
  2:{ exists (InvalidAddressError destination), []. rewrite app_nil_r.
      split; [reflexivity|]. split; [constructor|]. split; [reflexivity|].
      split; [right; left; reflexivity|]. intros _ H; try rewrite Hd' in H; discriminate. }
  unfold bind at 1.
  set (u' := if UNITTEST_MODE cfg then true else unittest).
  destruct (check_in_wallet_spec cfg w source multisig u' tr)
    as (r & calls & E & F & Hskip & Hr & Hans).
  rewrite E.
  destruct r as [u|e].
  - unfold bind at 1. rewrite check_dust_below by assumption.
    exists (TransactionError dust_msg), calls.
    split; [reflexivity|]. split; [exact F|].
    split; [intros H; apply Hskip; exact H|]. split; [right; right; left; reflexivity|].
    intros _ _ Hc. split; [reflexivity|].
    destruct (negb u' && negb (ms_is_str multisig)) eqn:Hw.
    + destruct Hc as [Hc | (H1 & H2 & H3)]; [discriminate|].
      apply (Hans eq_refl H1 H2).
    + apply Hskip. reflexivity.
  - exists e, calls. split; [reflexivity|]. split; [exact F|].
    split; [intros H; destruct (Hskip H) as [Hok _]; discriminate|].
    split.
    { destruct Hr as [Hr | [Hr | (e' & Hr & He')]]; [discriminate| |].
      - injection Hr as ->. left. reflexivity.
      - injection Hr as <-. right; right; right. exact He'. }
    intros _ _ Hc. exfalso.
    destruct (negb u' && negb (ms_is_str multisig)) eqn:Hw.
    + destruct Hc as [Hc | (H1 & H2 & H3)]; [discriminate|].
      destruct (Hans eq_refl H1 H2) as [Hr' _]. rewrite H3 in Hr'. discriminate.
    + destruct (Hskip eq_refl) as [Hok _]. discriminate.
Qed.

Lemma dust_failure_before_coin_selection_witness :
  exists e calls,
    transaction sample_config (sample_world []) (addr_src, addr_dst, Some 1, 10000, [])
      MsFalse false [] = (Err e, [] ++ calls) /\
    Forall (fun ev => ev = Rpc "validateaddress" [addr_src]) calls /\
    (true = false -> calls = []) /\
    (e = InvalidAddressError addr_src \/ e = InvalidAddressError addr_dst \/
     e = TransactionError dust_msg \/ rpc_failure e = true) /\
    (validate_address sample_config addr_src [] = (Ok tt, []) ->
     validate_address sample_config addr_dst [] = (Ok tt, []) ->
     (true = false \/
      (recursion_room (sample_world []) <> O /\
       answers (node (sample_world []) [] "validateaddress" [addr_src]) = true /\
       ismine (sample_world []) addr_src = true)) ->
     e = TransactionError dust_msg /\ calls = [Rpc "validateaddress" [addr_src]]).
Proof.
  exact (dust_failure_before_coin_selection sample_config (sample_world []) addr_src addr_dst
           1 10000 [] MsFalse false [] ltac:(vm_compute; reflexivity) ltac:(vm_compute; reflexivity)).
Defined.

(** C4 (counterexample).  A build paying 1 unit to a valid destination from
    a source of the wallet fails with the dust error after one call to the
    node, the wallet check [validateaddress]; when the node cannot be
    reached, the same build fails on that call with [BitcoindRPCError]
    instead of the dust error. *)
Lemma dust_failure_after_validateaddress :
  transaction sample_config (sample_world []) (addr_src, addr_dst, Some 1, 10000, [])
    MsFalse false [] =
  (Err (TransactionError dust_msg), [Rpc "validateaddress" [addr_src]]) /\
  transaction sample_config (with_node (sample_world []) (fun _ _ _ => reply_down))
    (addr_src, addr_dst, Some 1, 10000, []) MsFalse false [] =
  (Err (BitcoindRPCError "mainnet"), [Rpc "validateaddress" [addr_src]]).
Proof. vm_compute. split; reflexivity. Qed.

(** ** C6: insufficient funds *)

(** C6 (amended).  When the checks of a build pass with a required total
    [total_btc_out], and the coins of the source that the node (or the test
    fixture) lists have nonnegative amounts summing to less than it, the
    build fails with [BalanceError] carrying the source and the required
    total only (the amount available is not part of the error), and no call
    is made after the coin listing: nothing is built or sent. *)
Theorem insufficient_funds_balance_error cfg w source destination btc_amount fee data
  multisig unittest tr amt data_array total_btc_out tr1 l tr2 :
  let unittest' := if UNITTEST_MODE cfg then true else unittest in
  transaction_checks cfg w (source, destination, btc_amount, fee, data) multisig unittest' tr
    = (Ok (amt, data_array, total_btc_out), tr1) ->
  fetch_unspent cfg w source unittest' tr1 = (Ok l, tr2) ->
  Forall (fun c => 0 <= amount c) (owned_by source l) ->
  sum_amounts (owned_by source l) < total_btc_out ->
  transaction cfg w (source, destination, btc_amount, fee, data) multisig unittest tr
    = (Err (BalanceError source total_btc_out), tr2).
Proof.
  cbv zeta. intros Hc Hf Hn Hs. unfold transaction, bind at 1. rewrite Hc.
  unfold transaction_build, get_inputs, bind. rewrite Hf.
  unfold ret. rewrite (select_coins_short source l total_btc_out Hn Hs). reflexivity.
Qed.

Lemma insufficient_funds_balance_error_witness :
  transaction sample_config (sample_world [sample_coin 5000]) (addr_src, ""%string, None, 10000, [])
    MsFalse false []
  = (Err (BalanceError addr_src 10000),
     [Rpc "validateaddress" [addr_src]; Rpc "validateaddress" [addr_src]; Rpc "listunspent" []]).
Proof.
  apply (insufficient_funds_balance_error sample_config (sample_world [sample_coin 5000])
           addr_src ""%string None 10000 [] MsFalse false [] 0 [] 10000
           [Rpc "validateaddress" [addr_src]] [sample_coin 5000]).
  - vm_compute. reflexivity.
  - vm_compute. reflexivity.
  - constructor; [cbn; lia | constructor].
  - cbn. lia.
Defined.

(** C6 (counterexample).  Sources holding 5000 and 3000 units, short of the
    10000 needed, give the same error: the amount available is not carried. *)
Lemma balance_error_without_available_amount :
  fst (transaction sample_config (sample_world [sample_coin 5000])
         (addr_src, ""%string, None, 10000, []) MsFalse false [])
  = Err (BalanceError addr_src 10000) /\
  fst (transaction sample_config (sample_world [sample_coin 3000])
         (addr_src, ""%string, None, 10000, []) MsFalse false [])
  = Err (BalanceError addr_src 10000).
Proof. vm_compute. split; reflexivity. Qed.

(** ** C8: the change output *)

(** C8.  When the checks pass with a required total [total_btc_out] and the
    selected coins sum to [total_btc_in > total_btc_out], the build
    serialises the transaction with the change output
    [(source, total_btc_in - total_btc_out)], with no dust check on it. *)
Theorem change_output_not_dust_checked cfg w source destination btc_amount fee data
  multisig unittest tr amt data_array total_btc_out tr1 inputs total_btc_in tr2 :
  let unittest' := if UNITTEST_MODE cfg then true else unittest in
  transaction_checks cfg w (source, destination, btc_amount, fee, data) multisig unittest' tr
    = (Ok (amt, data_array, total_btc_out), tr1) ->
  get_inputs cfg w source total_btc_out unittest' tr1 = (Ok (Some (inputs, total_btc_in)), tr2) ->
  total_btc_out < total_btc_in ->
  transaction cfg w (source, destination, btc_amount, fee, data) multisig unittest tr
  = (bytes <- serialise cfg w inputs
                (if truthy destination then Some (destination, amt) else None)
                (match data with [] => None | _ => Some (data_array, data_value_of cfg multisig) end)
                (Some (source, total_btc_in - total_btc_out)) source multisig ;;
     ret (hexlify bytes)) tr2.
Proof.
  cbv zeta. intros Hc Hg Hlt. unfold transaction, bind at 1. rewrite Hc.
  unfold transaction_build, bind at 1. rewrite Hg.
  replace (total_btc_in - total_btc_out =? 0) with false by (symmetry; apply Z.eqb_neq; lia).
  reflexivity.
Qed.

(** A change of 1 unit, below the dust floor of 5430, is output. *)
Lemma change_output_not_dust_checked_witness :
  10001 - 10000 < REGULAR_DUST_SIZE sample_config /\
  transaction sample_config (sample_world [sample_coin 10001])
    (addr_src, ""%string, None, 10000, []) MsFalse false []
  = (bytes <- serialise sample_config (sample_world [sample_coin 10001]) [sample_coin 10001]
                None None (Some (addr_src, 10001 - 10000)) addr_src MsFalse ;;
     ret (hexlify bytes))
      [Rpc "validateaddress" [addr_src]; Rpc "validateaddress" [addr_src]; Rpc "listunspent" []].
Proof.
  split; [vm_compute; reflexivity|].
  apply (change_output_not_dust_checked sample_config (sample_world [sample_coin 10001])
           addr_src ""%string None 10000 [] MsFalse false [] 0 [] 10000
           [Rpc "validateaddress" [addr_src]] [sample_coin 10001] 10001).
  - vm_compute. reflexivity.
  - vm_compute. reflexivity.
  - lia.
Defined.

(** ** C5: what the serialiser depends on *)

Lemma agree_ret {A} (a : A) : agree (ret a) (ret a).
Proof. exists (Ok a). intros tr. split; reflexivity. Qed.

Lemma agree_raise {A} e : agree (A := A) (raise e) (raise e).
Proof. exists (Err e). intros tr. split; reflexivity. Qed.

Lemma agree_lift {A} e (o : option A) : agree (lift e o) (lift e o).
Proof. destruct o; [apply agree_ret | apply agree_raise]. Qed.

Lemma agree_lift_res {A} (r : res A) : agree (lift_res r) (lift_res r).
Proof. exists r. intros tr. split; reflexivity. Qed.

Lemma agree_bind {A B} (m1 m2 : M A) (k1 k2 : A -> M B) :
  agree m1 m2 -> (forall a, agree (k1 a) (k2 a)) -> agree (bind m1 k1) (bind m2 k2).
Proof.
  intros [r Hm] Hk. destruct r as [a|e].
  - destruct (Hk a) as [r' Hk']. exists r'. intros tr. unfold bind.
    destruct (Hm tr) as [-> ->]. apply Hk'.
  - exists (Err e). intros tr. unfold bind. destruct (Hm tr) as [-> ->]. split; reflexivity.
Qed.

Lemma agree_mapM {A B} (f1 f2 : A -> M B) l :
  (forall x, agree (f1 x) (f2 x)) -> agree (mapM f1 l) (mapM f2 l).
Proof.
  intros Hf. induction l as [|x l IH]; simpl; [apply agree_ret|].
  apply agree_bind; [apply Hf|]. intros y. apply agree_bind; [exact IH|]. intros ys. apply agree_ret.
Qed.

Create HintDb agree.

#[local] Hint Resolve agree_ret agree_raise agree_lift agree_lift_res : agree.

Ltac agree_step := repeat (apply agree_bind; [auto with agree|intros]).

Lemma agree_serialise_input x : agree (serialise_input x) (serialise_input x).
Proof. unfold serialise_input. agree_step. auto with agree. Qed.

Lemma agree_address_output cfg out : agree (address_output cfg out) (address_output cfg out).
Proof. destruct out as [addr value]. unfold address_output. agree_step. auto with agree. Qed.

Section NoWalletKey.
Variables (cfg : config) (w1 w2 : world).
Hypothesis Hwif : pubkey_of_wif w1 = pubkey_of_wif w2.
Hypothesis Hstr : pubkey_of_string w1 = pubkey_of_string w2.
Variable multisig : multisig_arg.
Hypothesis Hmode :
  ms_truthy multisig = false \/ ms_is_str multisig = true \/ UNITTEST_MODE cfg = true.

Lemma agree_data_script source chunk :
  agree (data_script cfg w1 source multisig chunk) (data_script cfg w2 source multisig chunk).
Proof.
  unfold data_script. destruct (ms_truthy multisig) eqn:Ht.
  - apply agree_bind.
    + unfold get_source_pubkey. destruct multisig as [| |k].
      * discriminate.
      * destruct Hmode as [H|[H|H]]; try discriminate. rewrite H.
        apply agree_bind; [apply agree_ret|]. intros wif. rewrite Hwif. apply agree_ret.
      * rewrite Hstr. apply agree_ret.
    + intros pk. destruct (_ <? 0); [apply agree_raise|]. agree_step. auto with agree.
  - agree_step. auto with agree.
Qed.

Lemma agree_data_chunk_output value source chunk :
  agree (data_chunk_output cfg w1 value source multisig chunk)
        (data_chunk_output cfg w2 value source multisig chunk).
Proof.
  unfold data_chunk_output. apply agree_bind; [auto with agree|]. intros vb.
  apply agree_bind; [apply agree_data_script|]. intros script. agree_step. auto with agree.
Qed.

End NoWalletKey.

(** C5 (amended).  When [multisig] is false, a public key string, or the
    build runs in unit-test mode, [serialise] makes no call to the node, and
    its result depends on its arguments and on pycoin's key functions only:
    two nodes that agree on those functions give the same result, whatever
    their wallets. *)
Theorem serialise_pure_without_wallet_key cfg w1 w2 inputs destination_output data_output
  change_output source multisig :
  pubkey_of_wif w1 = pubkey_of_wif w2 ->
  pubkey_of_string w1 = pubkey_of_string w2 ->
  ms_truthy multisig = false \/ ms_is_str multisig = true \/ UNITTEST_MODE cfg = true ->
  exists r, forall tr,
    serialise cfg w1 inputs destination_output data_output change_output source multisig tr
      = (r, tr) /\
    serialise cfg w2 inputs destination_output data_output change_output source multisig tr
      = (r, tr).
Proof.
  intros Hwif Hstr Hmode. unfold serialise.
  apply agree_bind; [auto with agree|]. intros n_inputs.
  apply agree_bind; [apply agree_mapM, agree_serialise_input|]. intros ins.
  apply agree_bind; [auto with agree|]. intros n_outputs.
  apply agree_bind; [destruct destination_output; [apply agree_address_output | apply agree_ret]|].
  intros dst.
  apply agree_bind.
  { destruct data_output as [[arr value]|]; [|apply agree_ret].
    apply agree_mapM. intros chunk. now apply agree_data_chunk_output. }
  intros dat.
  apply agree_bind; [destruct change_output; [apply agree_address_output | apply agree_ret]|].
  intros chg. apply agree_ret.
Qed.

Lemma serialise_pure_without_wallet_key_witness :
  exists r, forall tr,
    serialise sample_config (keyed_world unittest_wif) [sample_coin 100000] None
      (Some ([[1; 2; 3]], 7800)) (Some (addr_src, 1)) addr_src MsFalse tr = (r, tr) /\
    serialise sample_config (keyed_world "other") [sample_coin 100000] None
      (Some ([[1; 2; 3]], 7800)) (Some (addr_src, 1)) addr_src MsFalse tr = (r, tr).
Proof.
  apply serialise_pure_without_wallet_key; [reflexivity | reflexivity | left; reflexivity].
Defined.

(** C5 (counterexample).  With [multisig=True] outside unit-test mode,
    serialising one data chunk calls [dumpprivkey] on the node, and two
    nodes that differ only in the key their wallet holds give different
    bytes. *)
Lemma serialise_reads_wallet_key :
  snd (serialise sample_config (keyed_world unittest_wif) [] None (Some ([[1; 2; 3]], 7800))
         None addr_src MsTrue [])
  = [Rpc "dumpprivkey" [addr_src]] /\
  fst (serialise sample_config (keyed_world unittest_wif) [] None (Some ([[1; 2; 3]], 7800))
         None addr_src MsTrue [])
  <> fst (serialise sample_config (keyed_world "other") [] None (Some ([[1; 2; 3]], 7800))
            None addr_src MsTrue []).
Proof. vm_compute. split; [reflexivity | discriminate]. Qed.

(** ** C1: the order of the outputs *)

Lemma mapM_Forall2 {A B} (f : A -> M B) l tr ys tr' :
  mapM f l tr = (Ok ys, tr') ->
  Forall2 (fun x y => exists t1 t2, f x t1 = (Ok y, t2)) l ys.
Proof.
  revert tr ys tr'; induction l as [|x l IH]; intros tr ys tr' H.
  - simpl in H. injection H as <- _. constructor.
  - simpl in H. unfold bind in H.
    destruct (f x tr) as [[y|e] t1] eqn:Ef; [|discriminate].
    destruct (mapM f l t1) as [[ys'|e] t2] eqn:Em; [|discriminate].
    unfold ret in H. injection H as <- _. constructor; [eauto | eapply IH; exact Em].
Qed.

(** C1.  When [serialise] succeeds with a destination, data chunks and a
    change output, its bytes are the version, the inputs, the count
    [2 + #chunks] of outputs, then the destination output, the data outputs
    one per chunk in the order of the chunks, the change output, and the
    lock time: no other output, and no reordering. *)
Theorem serialise_output_order cfg w inputs destination_output data_array data_value
  change_output source multisig tr bytes tr' :
  serialise cfg w inputs (Some destination_output) (Some (data_array, data_value))
    (Some change_output) source multisig tr = (Ok bytes, tr') ->
  exists n_inputs ins n_outputs dst dat chg,
    var_int (Z.of_nat (List.length inputs)) = Some n_inputs /\
    Forall2 (fun x y => exists t1 t2, serialise_input x t1 = (Ok y, t2)) inputs ins /\
    var_int (1 + Z.of_nat (List.length data_array) + 1) = Some n_outputs /\
    (exists t1 t2, address_output cfg destination_output t1 = (Ok dst, t2)) /\
    Forall2 (fun chunk y => exists t1 t2,
               data_chunk_output cfg w data_value source multisig chunk t1 = (Ok y, t2))
            data_array dat /\
    (exists t1 t2, address_output cfg change_output t1 = (Ok chg, t2)) /\
    bytes = [1; 0; 0; 0] ++ n_inputs ++ List.concat ins ++ n_outputs ++ dst ++ List.concat dat
            ++ chg ++ [0; 0; 0; 0].
Proof.
  intros H. unfold serialise, bind, lift in H. cbv zeta in H.
  destruct (var_int (Z.of_nat (List.length inputs))) as [ni|] eqn:Eni; [|discriminate].
  unfold ret in H.
  destruct (mapM serialise_input inputs tr) as [[ins|e] t1] eqn:Ein; [|discriminate].
  change (opt_count (Some destination_output)) with 1 in H.
  change (opt_count (Some change_output)) with 1 in H.
  destruct (var_int (1 + Z.of_nat (List.length data_array) + 1)) as [no|] eqn:Eno;
    [|discriminate].
  destruct (address_output cfg destination_output t1) as [[d|e] t2] eqn:Ed; [|discriminate].
  destruct (mapM (data_chunk_output cfg w data_value source multisig) data_array t2)
    as [[ds|e] t3] eqn:Eds; [|discriminate].
  destruct (address_output cfg change_output t3) as [[c|e] t4] eqn:Ec; [|discriminate].
  injection H as <- _.
  exists ni, ins, no, d, ds, c. repeat split; eauto using mapM_Forall2.
Qed.

Lemma serialise_output_order_witness :
  exists n_inputs ins n_outputs dst dat chg,
    var_int (Z.of_nat (List.length [sample_coin 100000])) = Some n_inputs /\
    Forall2 (fun x y => exists t1 t2, serialise_input x t1 = (Ok y, t2))
      [sample_coin 100000] ins /\
    var_int (1 + Z.of_nat (List.length [[1; 2; 3]]) + 1) = Some n_outputs /\
    (exists t1 t2, address_output sample_config (addr_dst, 6000) t1 = (Ok dst, t2)) /\
    Forall2 (fun chunk y => exists t1 t2,
               data_chunk_output sample_config (sample_world []) 0 addr_src MsFalse chunk t1
               = (Ok y, t2))
            [[1; 2; 3]] dat /\
    (exists t1 t2, address_output sample_config (addr_src, 1) t1 = (Ok chg, t2)) /\
    fst (serialise sample_config (sample_world []) [sample_coin 100000] (Some (addr_dst, 6000))
           (Some ([[1; 2; 3]], 0)) (Some (addr_src, 1)) addr_src MsFalse [])
    = Ok ([1; 0; 0; 0] ++ n_inputs ++ List.concat ins ++ n_outputs ++ dst ++ List.concat dat
          ++ chg ++ [0; 0; 0; 0]).
Proof.
  assert (E : serialise sample_config (sample_world []) [sample_coin 100000]
                (Some (addr_dst, 6000)) (Some ([[1; 2; 3]], 0)) (Some (addr_src, 1))
                addr_src MsFalse []
              = (Ok [1; 0; 0; 0; 1; 1; 0; 0; 0; 0; 0; 0; 0; 0; 0; 0; 0; 0; 0; 0; 0; 0;
                     0; 0; 0; 0; 0; 0; 0; 0; 0; 0; 0; 0; 0; 0; 0; 0; 0; 0; 0; 6; 55;
                     54; 97; 57; 49; 52; 255; 255; 255; 255; 3; 112; 23; 0; 0; 0; 0; 0;
                     0; 25; 118; 169; 20; 1; 2; 3; 4; 5; 6; 7; 8; 9; 10; 11; 12; 13;
                     14; 15; 16; 17; 18; 19; 20; 136; 172; 0; 0; 0; 0; 0; 0; 0; 0; 5;
                     106; 3; 1; 2; 3; 1; 0; 0; 0; 0; 0; 0; 0; 25; 118; 169; 20; 0; 0;
                     0; 0; 0; 0; 0; 0; 0; 0; 0; 0; 0; 0; 0; 0; 0; 0; 0; 0; 136; 172; 0;
                     0; 0; 0], []))
    by (vm_compute; reflexivity).
  destruct (serialise_output_order sample_config (sample_world []) [sample_coin 100000]
              (addr_dst, 6000) [[1; 2; 3]] 0 (addr_src, 1) addr_src MsFalse [] _ _ E)
    as (ni & ins & no & d & ds & c & H1 & H2 & H3 & H4 & H5 & H6 & H7).
  exists ni, ins, no, d, ds, c.
  refine (conj H1 (conj H2 (conj H3 (conj H4 (conj H5 (conj H6 _)))))).
  rewrite <- H7. rewrite E. reflexivity.
Defined.

(** * Further properties *)

(** ** var_int and op_push *)

Lemma le_bytes_spec w n :
  0 <= n < 256 ^ Z.of_nat w ->
  List.length (le_bytes w n) = w /\ le_value (le_bytes w n) = n.
Proof.
  revert n; induction w as [|w IH]; intros n Hn.
  - simpl in Hn. simpl. split; [reflexivity | lia].
  - rewrite Nat2Z.inj_succ, Z.pow_succ_r in Hn by lia.
    assert (Hq : 0 <= n / 256 < 256 ^ Z.of_nat w).
    { split; [apply Z.div_pos; lia | apply Z.div_lt_upper_bound; lia]. }
    destruct (IH _ Hq) as [Hl Hv]. cbn [le_bytes List.length]. rewrite Hl.
    split; [reflexivity|].
    unfold le_value in *. cbn [fold_right]. rewrite Hv.
    pose proof (Z.div_mod n 256 ltac:(lia)). lia.
Qed.

Lemma read_le_bytes w n rest :
  0 <= n < 256 ^ Z.of_nat w -> read_le w (le_bytes w n ++ rest) = Some (n, rest).
Proof.
  intros Hn. destruct (le_bytes_spec w n Hn) as [Hl Hv]. unfold read_le.
  rewrite length_app, Hl. replace (w <=? w + List.length rest)%nat with true
    by (symmetry; apply Nat.leb_le; lia).
  rewrite firstn_app, skipn_app, firstn_all2, skipn_all2 by lia.
  rewrite Hl, Nat.sub_diag, app_nil_r, Hv. reflexivity.
Qed.

Lemma to_bytes_le_ok n w :
  0 <= n < 256 ^ Z.of_nat w -> to_bytes_le n w = Some (le_bytes w n).
Proof.
  intros Hn. unfold to_bytes_le.
  replace ((0 <=? n) && (n <? 256 ^ Z.of_nat w)) with true
    by (symmetry; apply andb_true_iff; split; [apply Z.leb_le | apply Z.ltb_lt]; lia).
  reflexivity.
Qed.

Lemma to_bytes_le_out n w :
  ~ (0 <= n < 256 ^ Z.of_nat w) -> to_bytes_le n w = None.
Proof.
  intros Hn. unfold to_bytes_le.
  destruct (0 <=? n) eqn:E1, (n <? 256 ^ Z.of_nat w) eqn:E2; try reflexivity.
  apply Z.leb_le in E1. apply Z.ltb_lt in E2. lia.
Qed.

(** [var_int i] writes [i] in Bitcoin's variable-length integer format for
    every [0 <= i < 2^64], so that reading it back off the front of any
    following bytes gives [i] and those bytes; a negative [i] or one of
    [2^64] or more raises [OverflowError]. *)
Theorem var_int_read i rest :
  (0 <= i < 2 ^ 64 ->
   exists b, var_int i = Some b /\ read_var_int (b ++ rest) = Some (i, rest)) /\
  (i < 0 \/ 2 ^ 64 <= i -> var_int i = None).
Proof.
  split.
  - intros Hi. unfold var_int.
    destruct (i <? 0xfd) eqn:E1; [apply Z.ltb_lt in E1|apply Z.ltb_ge in E1].
    { rewrite to_bytes_le_ok by (simpl; lia). eexists; split; [reflexivity|].
      simpl. rewrite Z.mod_small by lia.
      replace (i <? 253) with true by (symmetry; apply Z.ltb_lt; lia). reflexivity. }
    destruct (i <=? 0xffff) eqn:E2; [apply Z.leb_le in E2|apply Z.leb_gt in E2].
    { rewrite to_bytes_le_ok by (simpl; lia). eexists; split; [reflexivity|].
      cbn -[le_bytes read_le]. apply read_le_bytes. simpl. lia. }
    destruct (i <=? 0xffffffff) eqn:E3; [apply Z.leb_le in E3|apply Z.leb_gt in E3].
    { rewrite to_bytes_le_ok by (simpl; lia). eexists; split; [reflexivity|].
      cbn -[le_bytes read_le]. apply read_le_bytes. simpl. lia. }
    rewrite to_bytes_le_ok by (simpl; lia). eexists; split; [reflexivity|].
    cbn -[le_bytes read_le]. apply read_le_bytes. simpl. lia.
  - intros Hi. unfold var_int.
    destruct (i <? 0xfd) eqn:E1; [apply to_bytes_le_out; lia|].
    apply Z.ltb_ge in E1.
    destruct (i <=? 0xffff) eqn:E2; [apply Z.leb_le in E2; lia|].
    destruct (i <=? 0xffffffff) eqn:E3; [apply Z.leb_le in E3; lia|].
    rewrite to_bytes_le_out by (simpl; lia). reflexivity.
Qed.

(** [op_push i] writes the length [i] of a script push (directly below
    [0x4c], after OP_PUSHDATA1, OP_PUSHDATA2 or OP_PUSHDATA4 above) for every
    [0 <= i < 2^32], so that reading it back gives [i] and the bytes that
    follow; a negative [i] or one of [2^32] or more raises [OverflowError]. *)
Theorem op_push_read i rest :
  (0 <= i < 2 ^ 32 ->
   exists b, op_push i = Some b /\ read_push (b ++ rest) = Some (i, rest)) /\
  (i < 0 \/ 2 ^ 32 <= i -> op_push i = None).
Proof.
  split.
  - intros Hi. unfold op_push.
    destruct (i <? 0x4c) eqn:E1; [apply Z.ltb_lt in E1|apply Z.ltb_ge in E1].
    { rewrite to_bytes_le_ok by (simpl; lia). eexists; split; [reflexivity|].
      simpl. rewrite Z.mod_small by lia.
      replace (i <? 76) with true by (symmetry; apply Z.ltb_lt; lia). reflexivity. }
    destruct (i <=? 0xff) eqn:E2; [apply Z.leb_le in E2|apply Z.leb_gt in E2].
    { rewrite to_bytes_le_ok by (simpl; lia). eexists; split; [reflexivity|].
      cbn -[le_bytes read_le]. apply read_le_bytes. simpl. lia. }
    destruct (i <=? 0xffff) eqn:E3; [apply Z.leb_le in E3|apply Z.leb_gt in E3].
    { rewrite to_bytes_le_ok by (simpl; lia). eexists; split; [reflexivity|].
      cbn -[le_bytes read_le]. apply read_le_bytes. simpl. lia. }
    rewrite to_bytes_le_ok by (simpl; lia). eexists; split; [reflexivity|].
    cbn -[le_bytes read_le]. apply read_le_bytes. simpl. lia.
  - intros Hi. unfold op_push.
    destruct (i <? 0x4c) eqn:E1; [apply to_bytes_le_out; lia|].
    apply Z.ltb_ge in E1.
    destruct (i <=? 0xff) eqn:E2; [apply Z.leb_le in E2; lia|].
    destruct (i <=? 0xffff) eqn:E3; [apply Z.leb_le in E3; lia|].
    rewrite to_bytes_le_out by (simpl; lia). reflexivity.
Qed.

(** ** Base58: characters and leading zeros *)

Lemma decode_int_none n cs :
  decode_int n cs = None <-> Exists (fun c => b58_index c = None) cs.
Proof.
  revert n; induction cs as [|c cs IH]; intros n; simpl.
  - split; [discriminate | intros H; inversion H].
  - destruct (b58_index c) as [d|] eqn:E.
    + rewrite IH. split; [intros H; right; exact H|].
      intros H; inversion H; subst; [congruence | assumption].
    + split; [intros _; left; exact E | reflexivity].
Qed.

Lemma base58_decode_invalid_char_spec s version :
  base58_decode s version = Err InvalidBase58Error <->
  Exists (fun c => b58_index c = None) (list_ascii_of_string s).
Proof.
  rewrite <- (decode_int_none 0). unfold base58_decode, base58_decode_bytes.
  destruct (decode_int 0 (list_ascii_of_string s)) as [n|].
  - cbv zeta. split; [|discriminate].
    destruct (negb (list_eqb _ version)); [discriminate|].
    destruct (negb (list_eqb _ _)); discriminate.
  - split; reflexivity.
Qed.

(** [base58_decode] raises [InvalidBase58Error] exactly when the string has a
    character outside the base58 alphabet; a string of alphabet characters
    fails, if at all, with a version or a checksum error. *)
Theorem base58_decode_invalid_char s version :
  base58_decode s version = Err InvalidBase58Error <->
  Exists (fun c => b58_index c = None) (list_ascii_of_string s).
Proof. exact (base58_decode_invalid_char_spec s version). Qed.

Lemma b58_loop_alphabet fuel n : Forall (fun c => b58_index c <> None) (b58_loop fuel n).
Proof.
  revert n; induction fuel as [|f IH]; intros n; simpl; [constructor|].
  destruct (0 <? n); [|constructor].
  constructor; [|apply IH].
  rewrite b58_digit_index by (apply Z.mod_pos_bound; lia). discriminate.
Qed.

(** Every character [base58_check_encode] writes is in the base58 alphabet,
    so decoding its output never raises [InvalidBase58Error], whatever the
    version expected. *)
Theorem base58_check_encode_alphabet b version version' :
  Forall (fun c => b58_index c <> None) (list_ascii_of_string (base58_check_encode b version)) /\
  base58_decode (base58_check_encode b version) version' <> Err InvalidBase58Error.
Proof.
  assert (H : Forall (fun c => b58_index c <> None)
                (list_ascii_of_string (base58_check_encode b version))).
  { unfold base58_check_encode. cbv zeta. rewrite list_ascii_of_string_of_list_ascii.
    apply Forall_app. split.
    - apply Forall_forall. intros x Hx. apply repeat_spec in Hx. subst x. discriminate.
    - apply Forall_rev, b58_loop_alphabet. }
  split; [exact H|]. rewrite base58_decode_invalid_char_spec. intros HE.
  rewrite Forall_forall in H. apply Exists_exists in HE. destruct HE as (c & Hc & Hn).
  exact (H c Hc Hn).
Qed.

(** When version+payload has a nonzero byte (and its entries are bytes),
    the encoding starts with exactly one ['1'] per leading zero byte of
    version+payload, followed by a character other than ['1']. *)
Theorem base58_check_encode_leading_ones b version :
  Forall byte_range (version ++ b) -> Exists (fun x => x <> 0) (version ++ b) ->
  exists c rest,
    list_ascii_of_string (base58_check_encode b version)
    = List.repeat "1"%char (leading_zeros (version ++ b)) ++ c :: rest /\ c <> "1"%char.
Proof.
  intros Hr Hnz. set (d := version ++ b) in *.
  destruct (checksum_shape d) as [Hcl Hcr].
  set (c := firstn 4 (dhash d)) in *.
  destruct (leading_zeros_split d Hnz) as (x & rest & Hd & Hx).
  set (k := leading_zeros d) in *.
  assert (Hdr := Hr). rewrite Hd in Hdr. apply Forall_app in Hdr. destruct Hdr as [_ Hbr].
  inversion Hbr as [|? ? Hx' Hrest]; subst. unfold byte_range in Hx'.
  assert (Hrc : Forall byte_range (rest ++ c)) by (apply Forall_app; auto).
  assert (Ha : d ++ c = List.repeat 0 k ++ x :: rest ++ c).
  { rewrite Hd at 1. rewrite <- app_assoc. reflexivity. }
  unfold base58_check_encode. cbv zeta. fold d. fold c. fold k.
  rewrite list_ascii_of_string_of_list_ascii.
  rewrite Ha, be_to_Z_zeros.
  set (n := be_to_Z (x :: rest ++ c)).
  assert (Hn : 0 < n < 2 ^ Z.of_nat (S (Z.to_nat (Z.log2 n)))).
  { assert (Hpos : 0 < n).
    { unfold n. rewrite be_to_Z_cons. pose proof (be_to_Z_range _ Hrc).
      pose proof (Z.pow_pos_nonneg 256 (Z.of_nat (List.length (rest ++ c))) ltac:(lia)). nia. }
    split; [exact Hpos|]. rewrite Nat2Z.inj_succ, Z2Nat.id by apply Z.log2_nonneg.
    apply (Z.log2_spec n Hpos). }
  destruct (b58_loop_head _ _ Hn) as (ch & R & HR & Hch).
  rewrite HR. exists ch, R. split; [reflexivity | exact Hch].
Qed.

Lemma base58_check_encode_leading_ones_witness :
  exists c rest,
    list_ascii_of_string (base58_check_encode [0; 1; 2] [0])
    = List.repeat "1"%char (leading_zeros ([0] ++ [0; 1; 2])) ++ c :: rest /\ c <> "1"%char.
Proof.
  apply base58_check_encode_leading_ones.
  - repeat constructor; unfold byte_range; lia.
  - simpl. right. right. left. discriminate.
Defined.

(** ** C7: single-character changes *)




(** ** Output scripts *)

Lemma var_int_small i : 0 <= i < 253 -> var_int i = Some [i].
Proof.
  intros Hi. unfold var_int. replace (i <? 0xfd) with true by (symmetry; apply Z.ltb_lt; lia).
  rewrite to_bytes_le_ok by (simpl; lia). simpl. rewrite Z.mod_small by lia. reflexivity.
Qed.

Lemma op_push_small i : 0 <= i < 76 -> op_push i = Some [i].
Proof.
  intros Hi. unfold op_push. replace (i <? 0x4c) with true by (symmetry; apply Z.ltb_lt; lia).
  rewrite to_bytes_le_ok by (simpl; lia). simpl. rewrite Z.mod_small by lia. reflexivity.
Qed.

(** The destination and change outputs: the value in 8 little-endian bytes,
    the script length [len(h) + 5] as a [var_int], and the script OP_DUP
    OP_HASH160 0x14 <h> OP_EQUALVERIFY OP_CHECKSIG, where [h] is the
    payload decoded from the address.  The push byte is always 0x14 (20
    bytes), whatever the length of [h], so for a payload of another length
    the declared push length is wrong. *)
Theorem address_output_fixed_push cfg addr value pubkeyhash tr :
  base58_decode addr (ADDRESSVERSION cfg) = Ok pubkeyhash ->
  0 <= value < 2 ^ 64 ->
  address_output cfg (addr, value) tr
  = (match var_int (Z.of_nat (List.length pubkeyhash) + 5) with
     | Some script_len =>
         Ok (le_bytes 8 value ++ script_len ++
             [0x76; 0xa9; 0x14] ++ pubkeyhash ++ [0x88; 0xac])
     | None => Err OverflowError
     end, tr).
Proof.
  intros Hd Hv. unfold address_output, bind, lift_res, lift. rewrite Hd.
  rewrite to_bytes_le_ok by (simpl; lia).
  assert (E : List.length (p2pkh_script pubkeyhash) = (List.length pubkeyhash + 5)%nat).
  { unfold p2pkh_script, OP_DUP, OP_HASH160, OP_EQUALVERIFY, OP_CHECKSIG.
    rewrite !length_app. simpl. lia. }
  rewrite E, Nat2Z.inj_add. change (Z.of_nat 5) with 5. unfold ret, raise.
  destruct (var_int (Z.of_nat (List.length pubkeyhash) + 5)); reflexivity.
Qed.

(** An address whose payload has 5 bytes gets a script that pushes "20"
    bytes but holds 5. *)
Lemma address_output_fixed_push_witness :
  address_output sample_config ("1kA3B35AUCmV"%string, 6000) []
  = (match var_int (Z.of_nat (List.length [1; 2; 3; 4; 5]) + 5) with
     | Some script_len =>
         Ok (le_bytes 8 6000 ++ script_len ++
             [0x76; 0xa9; 0x14] ++ [1; 2; 3; 4; 5] ++ [0x88; 0xac])
     | None => Err OverflowError
     end, []).
Proof.
  apply address_output_fixed_push.
  - vm_compute. reflexivity.
  - lia.
Defined.

(** ** The transaction hash of blockchain.info, and the serialised input *)

Lemma flip_pairs_length_le n l : (List.length l <= n)%nat -> List.length (flip_pairs l) = List.length l.
Proof.
  revert l; induction n as [|n IH]; intros l Hl.
  - destruct l; [reflexivity | simpl in Hl; lia].
  - destruct l as [|a [|b t]]; try reflexivity.
    simpl in *. rewrite IH by lia. reflexivity.
Qed.

Lemma flip_pairs_length l : List.length (flip_pairs l) = List.length l.
Proof. apply (flip_pairs_length_le (List.length l)). lia. Qed.

Lemma pair_ind (A : Type) (P : list A -> Prop) :
  P [] -> (forall a, P [a]) -> (forall a b t, P t -> P (a :: b :: t)) -> forall l, P l.
Proof.
  intros H0 H1 H2 l. assert (H : forall n l, (List.length l <= n)%nat -> P l).
  { induction n as [|n IH]; intros l' Hl.
    - destruct l'; [exact H0 | simpl in Hl; lia].
    - destruct l' as [|a [|b t]]; [exact H0 | apply H1 |].
      apply H2, IH. simpl in Hl. lia. }
  apply (H (List.length l)). lia.
Qed.

Lemma unhexlify_chars_odd l : Nat.odd (List.length l) = true -> unhexlify_chars l = None.
Proof.
  induction l as [|a|a b t IH] using pair_ind; intros H.
  - discriminate.
  - reflexivity.
  - simpl. rewrite IH by (cbn [List.length] in H; rewrite Nat.odd_succ_succ in H; exact H).
    destruct (hex_val a), (hex_val b); reflexivity.
Qed.

Lemma flip_pairs_app l1 l2 :
  Nat.even (List.length l1) = true -> flip_pairs (l1 ++ l2) = flip_pairs l1 ++ flip_pairs l2.
Proof.
  induction l1 as [|a|a b t IH] using pair_ind; intros H.
  - reflexivity.
  - discriminate.
  - simpl. rewrite IH; [reflexivity|]. cbn [List.length] in H.
    rewrite Nat.even_succ_succ in H. exact H.
Qed.

Lemma unhexlify_chars_app l1 l2 :
  Nat.even (List.length l1) = true ->
  unhexlify_chars (l1 ++ l2) =
  match unhexlify_chars l1, unhexlify_chars l2 with
  | Some x, Some y => Some (x ++ y)
  | _, _ => None
  end.
Proof.
  induction l1 as [|a|a b t IH] using pair_ind; intros H.
  - simpl. destruct (unhexlify_chars l2); reflexivity.
  - discriminate.
  - simpl. rewrite IH by (cbn [List.length] in H; rewrite Nat.even_succ_succ in H; exact H).
    destruct (hex_val a), (hex_val b), (unhexlify_chars t), (unhexlify_chars l2); reflexivity.
Qed.

Lemma unhexlify_flip_rev cs :
  unhexlify_chars (flip_pairs (rev cs)) = option_map (@rev Z) (unhexlify_chars cs).
Proof.
  induction cs as [|a|a b t IH] using pair_ind.
  - reflexivity.
  - reflexivity.
  - simpl rev. rewrite <- app_assoc. simpl app.
    destruct (Nat.even (List.length t)) eqn:Ev.
    + assert (Ev' : Nat.even (List.length (rev t)) = true) by (rewrite length_rev; exact Ev).
      rewrite flip_pairs_app by exact Ev'. simpl flip_pairs.
      assert (Ev'' : Nat.even (List.length (flip_pairs (rev t))) = true)
        by (rewrite flip_pairs_length; exact Ev').
      rewrite unhexlify_chars_app by exact Ev''. rewrite IH. simpl.
      destruct (unhexlify_chars t), (hex_val a), (hex_val b); reflexivity.
    + assert (Od : Nat.odd (List.length t) = true)
        by (unfold Nat.odd; rewrite Ev; reflexivity).
      rewrite (unhexlify_chars_odd (a :: b :: t))
        by (cbn [List.length]; rewrite Nat.odd_succ_succ; exact Od).
      apply unhexlify_chars_odd. rewrite flip_pairs_length, length_app, length_rev.
      cbn [List.length]. rewrite Nat.add_comm. cbn [Nat.add]. rewrite Nat.odd_succ_succ.
      exact Od.
Qed.

Lemma blockchain_txid_bytes_spec tx_hash :
  unhexlify (blockchain_txid tx_hash) = option_map (@rev Z) (unhexlify tx_hash).
Proof.
  unfold unhexlify, blockchain_txid. rewrite list_ascii_of_string_of_list_ascii.
  apply unhexlify_flip_rev.
Qed.

(** The hash conversion of [get_unspent_txouts] (the string reversed, then
    the characters of every pair swapped back) reverses the byte order of
    the hex hash: its bytes are those of the blockchain.info hash in reverse
    order, and it is malformed hex exactly when that hash is. *)
Theorem blockchain_txid_bytes tx_hash :
  unhexlify (blockchain_txid tx_hash) = option_map (@rev Z) (unhexlify tx_hash).
Proof. exact (blockchain_txid_bytes_spec tx_hash). Qed.

(** A coin whose [txid] is the converted blockchain.info hash [tx_hash] is
    serialised with the bytes of [tx_hash] in their given order (the
    conversion and [serialise]'s [[::-1]] cancel), then the output index in
    4 little-endian bytes, the script length as a [var_int] and the script,
    and the sequence [ff ff ff ff]. *)
Theorem serialise_input_blockchain_txid txin tx_hash hash_bytes tr :
  txid txin = blockchain_txid tx_hash ->
  unhexlify tx_hash = Some hash_bytes ->
  0 <= vout txin < 2 ^ 32 ->
  serialise_input txin tr
  = (match var_int (Z.of_nat (List.length (str_encode (scriptPubKey txin)))) with
     | Some script_len =>
         Ok (hash_bytes ++ le_bytes 4 (vout txin) ++ script_len ++
             str_encode (scriptPubKey txin) ++ [255; 255; 255; 255])
     | None => Err OverflowError
     end, tr).
Proof.
  intros Ht Hh Hv. unfold serialise_input, bind, lift.
  rewrite Ht, blockchain_txid_bytes_spec, Hh. simpl option_map. unfold ret, raise.
  rewrite to_bytes_le_ok by (simpl; lia).
  destruct (var_int (Z.of_nat (List.length (str_encode (scriptPubKey txin)))));
    cbn [option_map]; rewrite ?rev_involutive; reflexivity.
Qed.

(** A script of 300 bytes gets the 3-byte length [fd 2c 01]. *)
Lemma serialise_input_blockchain_txid_witness :
  serialise_input {| address := addr_src; txid := blockchain_txid "0123456789"%string;
                     vout := 1; scriptPubKey := long_script; amount := 5000 |} []
  = (match var_int (Z.of_nat (List.length (str_encode long_script))) with
     | Some script_len =>
         Ok ([1; 35; 69; 103; 137] ++ le_bytes 4 1 ++ script_len ++
             str_encode long_script ++ [255; 255; 255; 255])
     | None => Err OverflowError
     end, []) /\
  var_int (Z.of_nat (List.length (str_encode long_script))) = Some [0xfd; 0x2c; 0x01].
Proof.
  split.
  - apply (serialise_input_blockchain_txid
             {| address := addr_src; txid := blockchain_txid "0123456789"%string;
                vout := 1; scriptPubKey := long_script; amount := 5000 |}
             "0123456789"%string [1; 35; 69; 103; 137] []).
    + reflexivity.
    + vm_compute. reflexivity.
    + simpl. lia.
  - vm_compute. reflexivity.
Defined.

(** ** Data chunks, data scripts and the total to send *)

Lemma chunks_loop_spec n fuel l :
  (0 < n)%nat -> (List.length l <= fuel * n)%nat ->
  List.concat (chunks_loop fuel l n) = l /\
  Forall (fun c => 1 <= List.length c <= n)%nat (chunks_loop fuel l n) /\
  List.length (chunks_loop fuel l n) = ((List.length l + n - 1) / n)%nat.
Proof.
  intros Hn. revert l; induction fuel as [|f IH]; intros l Hl.
  - destruct l; [|simpl in Hl; lia]. simpl. split; [reflexivity|]. split; [constructor|].
    symmetry. apply Nat.div_small. lia.
  - destruct l as [|x l'].
    + simpl. split; [reflexivity|]. split; [constructor|].
      symmetry. apply Nat.div_small. lia.
    + cbn [chunks_loop]. set (l := x :: l') in *.
      assert (Hlen : (1 <= List.length l)%nat) by (subst l; simpl; lia).
      clearbody l.
      assert (Hs : (List.length (skipn n l) <= f * n)%nat)
        by (rewrite length_skipn; rewrite Nat.mul_succ_l in Hl; lia).
      destruct (IH (skipn n l) Hs) as (H1 & H2 & H3).
      split; [simpl; rewrite H1; apply firstn_skipn|].
      split.
      * constructor; [|exact H2]. rewrite length_firstn. lia.
      * simpl. rewrite H3, length_skipn.
        destruct (Nat.le_gt_cases (List.length l) n) as [Hle|Hgt].
        -- replace (List.length l - n)%nat with 0%nat by lia.
           rewrite (Nat.div_small (0 + n - 1)) by lia.
           apply (Nat.div_unique _ _ 1 (List.length l - 1)); lia.
        -- replace (List.length l + n - 1)%nat with ((List.length l - n + n - 1) + 1 * n)%nat
             by lia.
           rewrite Nat.div_add by lia. lia.
Qed.

Lemma chunks_spec l n :
  (0 < n)%nat ->
  List.concat (chunks l n) = l /\
  Forall (fun c => 1 <= List.length c <= n)%nat (chunks l n) /\
  List.length (chunks l n) = ((List.length l + n - 1) / n)%nat.
Proof. intros Hn. apply chunks_loop_spec; [exact Hn | nia]. Qed.

Lemma divide_data_multisig_spec data multisig tr :
  ms_truthy multisig = true ->
  exists data_array,
    divide_data data multisig tr = (Ok data_array, tr) /\
    List.concat data_array = data /\
    Forall (fun c => 1 <= List.length c <= 32)%nat data_array /\
    List.length data_array = ((List.length data + 31) / 32)%nat.
Proof.
  intros Hm. destruct (chunks_spec data 32 ltac:(lia)) as (H1 & H2 & H3).
  destruct data as [|x l] eqn:Ed.
  - exists []. split; [reflexivity|]. split; [reflexivity|]. split; [constructor|]. reflexivity.
  - exists (chunks (x :: l) 32). unfold divide_data. rewrite Hm.
    split; [reflexivity|]. split; [exact H1|]. split; [exact H2|]. rewrite H3. f_equal. lia.
Qed.

(** With [multisig] set, the data is cut into chunks of at most 32 bytes,
    none empty, that concatenate back to the data, and whose number is the
    length of the data divided by 32, rounded up; this never fails. *)
Theorem divide_data_multisig data multisig tr :
  ms_truthy multisig = true ->
  exists data_array,
    divide_data data multisig tr = (Ok data_array, tr) /\
    List.concat data_array = data /\
    Forall (fun c => 1 <= List.length c <= 32)%nat data_array /\
    List.length data_array = ((List.length data + 31) / 32)%nat.
Proof. exact (divide_data_multisig_spec data multisig tr). Qed.

Lemma divide_data_multisig_witness :
  exists data_array,
    divide_data (sample_data 70) MsTrue [] = (Ok data_array, []) /\
    List.concat data_array = sample_data 70 /\
    Forall (fun c => 1 <= List.length c <= 32)%nat data_array /\
    List.length data_array = ((List.length (sample_data 70) + 31) / 32)%nat.
Proof. apply divide_data_multisig. reflexivity. Defined.

Lemma divide_data_op_return_spec data multisig tr :
  ms_truthy multisig = false ->
  divide_data data multisig tr =
  (if (List.length data <=? 80)%nat
   then Ok (match data with [] => [] | _ => [data] end)
   else Err AssertionError, tr).
Proof.
  intros Hm. destruct data as [|x l]; [reflexivity|].
  unfold divide_data. cbv iota zeta. rewrite Hm.
  set (data := x :: l) in *.
  assert (Hl : (1 <= List.length data)%nat) by (subst data; simpl; lia).
  clearbody data.
  destruct (chunks_spec data 80 ltac:(lia)) as (H1 & H2 & H3).
  destruct (List.length data <=? 80)%nat eqn:E.
  - apply Nat.leb_le in E.
    assert (Hc : List.length (chunks data 80) = 1%nat).
    { rewrite H3. symmetry. apply (Nat.div_unique _ _ 1 (List.length data - 1)); lia. }
    rewrite Hc. simpl Nat.eqb. cbv iota.
    destruct (chunks data 80) as [|c [|c' r]] eqn:Ec; try discriminate.
    simpl in H1. rewrite app_nil_r in H1. subst c. reflexivity.
  - apply Nat.leb_gt in E.
    replace (Nat.eqb (List.length (chunks data 80)) 1) with false; [reflexivity|].
    symmetry. apply Nat.eqb_neq. rewrite H3.
    assert (2 <= (List.length data + 80 - 1) / 80)%nat.
    { apply Nat.div_le_lower_bound; lia. }
    lia.
Qed.

(** Without [multisig], data of at most 80 bytes becomes a single chunk
    (none for empty data), and longer data fails the [assert] that only one
    OP_RETURN output is supported. *)
Theorem divide_data_op_return data multisig tr :
  ms_truthy multisig = false ->
  divide_data data multisig tr =
  (if (List.length data <=? 80)%nat
   then Ok (match data with [] => [] | _ => [data] end)
   else Err AssertionError, tr).
Proof. exact (divide_data_op_return_spec data multisig tr). Qed.

Lemma divide_data_op_return_witness :
  divide_data (sample_data 81) MsFalse [] =
  (if (List.length (sample_data 81) <=? 80)%nat
   then Ok (match sample_data 81 with [] => [] | _ => [sample_data 81] end)
   else Err AssertionError, []).
Proof. apply divide_data_op_return. reflexivity. Defined.

(** A data chunk of at most 32 bytes is hidden in a 1-of-2 multisig script
    [OP_1 <source pubkey> <data pubkey> OP_2 OP_CHECKMULTISIG], whose fake
    data key has 33 bytes: the chunk's length, the chunk, and zero padding;
    a longer chunk fails the [assert] once the source key is obtained. *)
Theorem data_script_multisig cfg w source multisig chunk tr :
  ms_truthy multisig = true ->
  ((List.length chunk <= 32)%nat ->
   data_script cfg w source multisig chunk tr =
   (source_pubkey <- get_source_pubkey cfg w source multisig ;;
    p1 <- lift OverflowError (op_push (Z.of_nat (List.length source_pubkey))) ;;
    ret (OP_1 ++ p1 ++ source_pubkey ++ [33] ++
         ([Z.of_nat (List.length chunk)] ++ chunk ++ List.repeat 0 (32 - List.length chunk))
         ++ OP_2 ++ OP_CHECKMULTISIG)) tr) /\
  ((32 < List.length chunk)%nat ->
   data_script cfg w source multisig chunk tr =
   (source_pubkey <- get_source_pubkey cfg w source multisig ;; raise AssertionError) tr).
Proof.
  intros Hm. unfold data_script. rewrite Hm. split; intros Hl; unfold bind, lift;
    destruct (get_source_pubkey cfg w source multisig tr) as [[pk|e] tr1]; try reflexivity.
  - replace (33 - 1 - Z.of_nat (List.length chunk) <? 0) with false
      by (symmetry; apply Z.ltb_ge; lia).
    replace (Z.to_nat (33 - 1 - Z.of_nat (List.length chunk))) with (32 - List.length chunk)%nat
      by (symmetry; apply Nat2Z.inj; rewrite Z2Nat.id by lia; lia).
    assert (E : List.length ([Z.of_nat (List.length chunk)] ++ chunk ++
                             List.repeat 0 (32 - List.length chunk)) = 33%nat)
      by (rewrite !length_app, repeat_length; cbn [List.length]; lia).
    rewrite E. change (Z.of_nat 33) with 33. rewrite (op_push_small 33) by lia.
    destruct (op_push (Z.of_nat (List.length pk))); reflexivity.
  - replace (33 - 1 - Z.of_nat (List.length chunk) <? 0) with true
      by (symmetry; apply Z.ltb_lt; lia).
    reflexivity.
Qed.

Lemma data_script_multisig_witness :
  ((List.length sample_chunk <= 32)%nat ->
   data_script sample_config (sample_world []) addr_src (MsPubkey "02ab") sample_chunk [] =
   (source_pubkey <- get_source_pubkey sample_config (sample_world []) addr_src (MsPubkey "02ab") ;;
    p1 <- lift OverflowError (op_push (Z.of_nat (List.length source_pubkey))) ;;
    ret (OP_1 ++ p1 ++ source_pubkey ++ [33] ++
         ([Z.of_nat (List.length sample_chunk)] ++ sample_chunk ++
          List.repeat 0 (32 - List.length sample_chunk))
         ++ OP_2 ++ OP_CHECKMULTISIG)) []) /\
  ((32 < List.length sample_chunk)%nat ->
   data_script sample_config (sample_world []) addr_src (MsPubkey "02ab") sample_chunk [] =
   (source_pubkey <- get_source_pubkey sample_config (sample_world []) addr_src (MsPubkey "02ab") ;;
    raise AssertionError) []).
Proof. apply data_script_multisig. reflexivity. Defined.

(** Without [multisig], a chunk of at most 80 bytes is pushed after
    OP_RETURN, with a one-byte length below 76 bytes and with OP_PUSHDATA1
    from 76 bytes on. *)
Theorem data_script_op_return cfg w source multisig chunk tr :
  ms_truthy multisig = false -> (List.length chunk <= 80)%nat ->
  data_script cfg w source multisig chunk tr =
  (Ok (OP_RETURN ++
       (if (List.length chunk <? 76)%nat then [Z.of_nat (List.length chunk)]
        else [0x4c; Z.of_nat (List.length chunk)]) ++ chunk), tr).
Proof.
  intros Hm Hl. unfold data_script. rewrite Hm. unfold bind, lift.
  destruct (List.length chunk <? 76)%nat eqn:E.
  - apply Nat.ltb_lt in E. rewrite op_push_small by lia. reflexivity.
  - apply Nat.ltb_ge in E. unfold op_push.
    replace (Z.of_nat (List.length chunk) <? 0x4c) with false by (symmetry; apply Z.ltb_ge; lia).
    replace (Z.of_nat (List.length chunk) <=? 0xff) with true by (symmetry; apply Z.leb_le; lia).
    rewrite to_bytes_le_ok by (simpl; lia). simpl. rewrite Z.mod_small by lia. reflexivity.
Qed.

Lemma data_script_op_return_witness :
  data_script sample_config (sample_world []) addr_src MsFalse (sample_data 78) [] =
  (Ok (OP_RETURN ++
       (if (List.length (sample_data 78) <? 76)%nat then [Z.of_nat (List.length (sample_data 78))]
        else [0x4c; Z.of_nat (List.length (sample_data 78))]) ++ sample_data 78), []).
Proof. apply data_script_op_return; [reflexivity | vm_compute; lia]. Defined.

Lemma fold_data_value (dv fee : Z) (arr : list (list Z)) :
  fold_left (fun t _ => t + dv) arr fee = fee + Z.of_nat (List.length arr) * dv.
Proof.
  revert fee; induction arr as [|c arr IH]; intros fee; cbn [fold_left List.length]; [lia|].
  rewrite IH, Nat2Z.inj_succ. lia.
Qed.

(** When the checks of a build pass, the data chunks concatenate back to the
    data, their number is the length of the data over 32 rounded up with
    [multisig] (one, or none for empty data, without), and the total to
    send is the fee, plus the data output value per chunk, plus the
    destination amount when there is a destination. *)
Theorem transaction_checks_total cfg w source destination btc_amount fee data multisig unittest
  tr amt data_array total_btc_out tr' :
  transaction_checks cfg w (source, destination, btc_amount, fee, data) multisig unittest tr
    = (Ok (amt, data_array, total_btc_out), tr') ->
  List.concat data_array = data /\
  List.length data_array =
    (if ms_truthy multisig then (List.length data + 31) / 32
     else if (List.length data =? 0)%nat then 0 else 1)%nat /\
  total_btc_out = fee + Z.of_nat (List.length data_array) * data_value_of cfg multisig
                  + (if truthy destination then amt else 0).
Proof.
  intros H. unfold transaction_checks, bind in H.
  destruct (validate_address cfg source tr) as [[u|e] t1]; [|discriminate].
  destruct (validate_address cfg destination t1) as [[u'|e] t2]; [|discriminate].
  destruct (check_in_wallet cfg w source multisig unittest t2) as [[u''|e] t3]; [|discriminate].
  destruct (check_dust cfg destination btc_amount multisig t3) as [[a|e] t4]; [|discriminate].
  destruct (divide_data data multisig t4) as [[arr|e] t5] eqn:Ed; [|discriminate].
  unfold ret in H. injection H as <- <- <- _.
  unfold total_out. rewrite fold_data_value.
  destruct (ms_truthy multisig) eqn:Hm.
  - destruct (divide_data_multisig_spec data multisig t4 Hm) as (arr' & E & H1 & _ & H3).
    rewrite Ed in E. injection E as <-. split; [exact H1|]. split; [exact H3|].
    destruct (truthy destination); lia.
  - rewrite (divide_data_op_return_spec data multisig t4 Hm) in Ed.
    destruct (List.length data <=? 80)%nat; [|discriminate].
    injection Ed as <- _. destruct data as [|x l].
    + split; [reflexivity|]. split; [reflexivity|]. destruct (truthy destination); simpl; lia.
    + split; [simpl; rewrite app_nil_r; reflexivity|]. split; [reflexivity|].
      destruct (truthy destination); simpl; lia.
Qed.

Lemma transaction_checks_total_witness :
  List.concat [sample_chunk] = sample_chunk /\
  List.length [sample_chunk] =
    (if ms_truthy MsFalse then (List.length sample_chunk + 31) / 32
     else if (List.length sample_chunk =? 0)%nat then 0 else 1)%nat /\
  16000 = 10000 + Z.of_nat (List.length [sample_chunk]) * data_value_of sample_config MsFalse
          + (if truthy addr_dst then 6000 else 0).
Proof.
  apply (transaction_checks_total sample_config (sample_world []) addr_src addr_dst (Some 6000)
           10000 sample_chunk MsFalse false [] 6000 [sample_chunk] 16000
           [Rpc "validateaddress" [addr_src]]).
  vm_compute. reflexivity.
Defined.

(** ** The calls a build makes to the outside *)

Section Emits.
Variable P : event -> Prop.

Lemma emits_ret {A} (a : A) : emits P (ret a).
Proof. intros tr. exists []. rewrite app_nil_r. split; [reflexivity | constructor]. Qed.

Lemma emits_raise {A} (e : exn) : emits P (raise (A:=A) e).
Proof. intros tr. exists []. rewrite app_nil_r. split; [reflexivity | constructor]. Qed.

Lemma emits_emit (e : event) : P e -> emits P (emit e).
Proof. intros He tr. exists [e]. split; [reflexivity | constructor; [exact He | constructor]]. Qed.

Lemma emits_lift {A} (e : exn) (o : option A) : emits P (lift e o).
Proof. destruct o; [apply emits_ret | apply emits_raise]. Qed.

Lemma emits_lift_res {A} (r : res A) : emits P (lift_res r).
Proof. intros tr. exists []. rewrite app_nil_r. split; [reflexivity | constructor]. Qed.

Lemma emits_bind {A B} (m : M A) (k : A -> M B) :
  emits P m -> (forall a, emits P (k a)) -> emits P (bind m k).
Proof.
  intros Hm Hk tr. destruct (Hm tr) as (n1 & E1 & F1). unfold bind.
  destruct (m tr) as [[a|e] t1]; simpl in E1; subst t1.
  - destruct (Hk a (tr ++ n1)) as (n2 & E2 & F2). exists (n1 ++ n2).
    rewrite E2, app_assoc. split; [reflexivity | apply Forall_app; split; assumption].
  - exists n1. split; [reflexivity | exact F1].
Qed.

Lemma emits_catch {A} (m : M A) (h : exn -> M A) :
  emits P m -> (forall e, emits P (h e)) -> emits P (catch m h).
Proof.
  intros Hm Hh tr. destruct (Hm tr) as (n1 & E1 & F1). unfold catch.
  destruct (m tr) as [[a|e] t1]; simpl in E1; subst t1.
  - exists n1. split; [reflexivity | exact F1].
  - destruct (Hh e (tr ++ n1)) as (n2 & E2 & F2). exists (n1 ++ n2).
    rewrite E2, app_assoc. split; [reflexivity | apply Forall_app; split; assumption].
Qed.

Lemma emits_mapM {A B} (f : A -> M B) (l : list A) :
  (forall x, emits P (f x)) -> emits P (mapM f l).
Proof.
  intros Hf. induction l as [|x l IH]; simpl.
  - apply emits_ret.
  - apply emits_bind; [apply Hf | intros y].
    apply emits_bind; [exact IH | intros ys]. apply emits_ret.
Qed.

End Emits.

Ltac emits_auto :=
  repeat match goal with
  | |- emits _ (bind _ _) => apply emits_bind; [|intros ?]
  | |- emits _ ((fun _ => _) _) => cbv beta
  | |- emits _ (ret _) => apply emits_ret
  | |- emits _ (raise _) => apply emits_raise
  | |- emits _ (emit _) => apply emits_emit
  | |- emits _ (lift _ _) => apply emits_lift
  | |- emits _ (lift_res _) => apply emits_lift_res
  | |- emits _ (catch _ _) => apply emits_catch; [|intros ?]
  | |- emits _ (mapM _ _) => apply emits_mapM; intros ?
  | |- emits _ (if ?b then _ else _) => destruct b
  | |- emits _ (match ?x with _ => _ end) => destruct x
  end.

Lemma emits_validate_address P cfg a : emits P (validate_address cfg a).
Proof. unfold validate_address. emits_auto. Qed.

Lemma emits_check_dust P cfg d a ms : emits P (check_dust cfg d a ms).
Proof. unfold check_dust. emits_auto. Qed.

Lemma emits_divide_data P data ms : emits P (divide_data data ms).
Proof. unfold divide_data. emits_auto. Qed.

Lemma emits_check_in_wallet (P : event -> Prop) cfg w source ms unittest :
  (negb unittest && negb (ms_is_str ms) = true -> P (Rpc "validateaddress" [source])) ->
  emits P (check_in_wallet cfg w source ms unittest).
Proof.
  intros HP. unfold check_in_wallet. destruct (negb unittest && negb (ms_is_str ms)).
  - unfold rpc_validateaddress. apply emits_bind; [apply emits_bind|].
    + apply emits_rpc; [apply HP; reflexivity|]. intros a rest Ha. injection Ha as -> _.
      apply HP. reflexivity.
    + intros u. apply emits_ret.
    + intros mine. emits_auto.
  - apply emits_ret.
Qed.

(** The key lookup: [dumpprivkey] on the source and, after a -4, the
    nested [validateaddress] on it. *)
Lemma emits_get_source_pubkey (P : event -> Prop) cfg w source ms :
  (UNITTEST_MODE cfg = false -> ms_is_str ms = false -> P (Rpc "dumpprivkey" [source])) ->
  (UNITTEST_MODE cfg = false -> ms_is_str ms = false -> P (Rpc "validateaddress" [source])) ->
  emits P (get_source_pubkey cfg w source ms).
Proof.
  intros HP HV. unfold get_source_pubkey. destruct ms as [| |s]; [| |apply emits_ret];
    destruct (UNITTEST_MODE cfg) eqn:U; unfold rpc_dumpprivkey; emits_auto;
    try (apply emits_rpc; [apply HP; reflexivity|]; intros a rest Ha; injection Ha as -> _;
         apply HV; reflexivity).
Qed.

Lemma emits_data_chunk_output (P : event -> Prop) cfg w value source ms chunk :
  (ms_truthy ms = true -> UNITTEST_MODE cfg = false -> ms_is_str ms = false ->
   P (Rpc "dumpprivkey" [source])) ->
  (ms_truthy ms = true -> UNITTEST_MODE cfg = false -> ms_is_str ms = false ->
   P (Rpc "validateaddress" [source])) ->
  emits P (data_chunk_output cfg w value source ms chunk).
Proof.
  intros HP HV. unfold data_chunk_output. apply emits_bind; [apply emits_lift | intros vb].
  apply emits_bind; [|intros script; emits_auto].
  unfold data_script. destruct (ms_truthy ms) eqn:Hm; [|emits_auto].
  apply emits_bind; [apply emits_get_source_pubkey; intros; [apply HP | apply HV]; auto | intros pk].
  emits_auto.
Qed.

Lemma emits_serialise (P : event -> Prop) cfg w inputs dst dat chg source ms :
  (ms_truthy ms = true -> UNITTEST_MODE cfg = false -> ms_is_str ms = false ->
   P (Rpc "dumpprivkey" [source])) ->
  (ms_truthy ms = true -> UNITTEST_MODE cfg = false -> ms_is_str ms = false ->
   P (Rpc "validateaddress" [source])) ->
  emits P (serialise cfg w inputs dst dat chg source ms).
Proof.
  intros HP HV. unfold serialise.
  apply emits_bind; [apply emits_lift | intros n_in].
  apply emits_bind; [apply emits_mapM; intros txin; unfold serialise_input; emits_auto
                    | intros ins].
  apply emits_bind; [apply emits_lift | intros n_out].
  apply emits_bind; [destruct dst as [out|]; [unfold address_output; emits_auto | apply emits_ret]
                    | intros d].
  apply emits_bind; [destruct dat as [[arr value]|];
                     [apply emits_mapM; intros c; apply emits_data_chunk_output; [exact HP | exact HV]
                     | apply emits_ret] | intros d'].
  apply emits_bind; [destruct chg as [out|]; [unfold address_output; emits_auto | apply emits_ret]
                    | intros c].
  apply emits_ret.
Qed.

Lemma emits_get_inputs (P : event -> Prop) cfg w source total unittest :
  (unittest = false -> P (Rpc "validateaddress" [source])) ->
  (unittest = false -> P (Rpc "listunspent" [])) ->
  (unittest = true -> P (ReadFile "../test/listunspent.test.json")) ->
  emits P (get_inputs cfg w source total unittest).
Proof.
  intros H1 H2 H3. unfold get_inputs, fetch_unspent, rpc_validateaddress, rpc_listunspent.
  destruct unittest; simpl negb; cbv iota; [emits_auto; auto|].
  apply emits_bind; [|intros l; apply emits_ret].
  apply emits_bind.
  - apply emits_bind; [|intros u; apply emits_ret].
    apply emits_rpc; [apply H1; reflexivity|]. intros a rest Ha. injection Ha as -> _.
    apply H1. reflexivity.
  - intros mine. destruct mine; [|emits_auto].
    apply emits_bind; [|intros u; apply emits_ret].
    apply emits_rpc; [apply H2; reflexivity|]. intros a rest Ha. discriminate.
Qed.

(** Whatever its arguments and whatever the node answers, a build only asks
    bitcoind whether the source address is in the wallet, for the unspent
    outputs and (with [multisig=True] outside unit-test mode) for the
    source's private key.  In unit-test mode it reads the fixture file
    instead of listing the unspent outputs, and it asks about the source
    only when [multisig=True] outside a unit-test configuration, as the
    nested call of [rpc] after a -4 answer to [dumpprivkey].  It never signs
    nor broadcasts, and never asks about any other address. *)
Theorem transaction_outside_calls cfg w source destination btc_amount fee data multisig unittest :
  let unittest' := if UNITTEST_MODE cfg then true else unittest in
  emits (fun e =>
           (e = Rpc "validateaddress" [source] /\
            (unittest' = false \/ (UNITTEST_MODE cfg = false /\ multisig = MsTrue))) \/
           (unittest' = false /\ e = Rpc "listunspent" []) \/
           (unittest' = true /\ e = ReadFile "../test/listunspent.test.json") \/
           (UNITTEST_MODE cfg = false /\ multisig = MsTrue /\ e = Rpc "dumpprivkey" [source]))
        (transaction cfg w (source, destination, btc_amount, fee, data) multisig unittest).
Proof.
  intros unittest'. unfold transaction. fold unittest'.
  apply emits_bind.
  - unfold transaction_checks.
    apply emits_bind; [apply emits_validate_address | intros u1].
    apply emits_bind; [apply emits_validate_address | intros u2].
    apply emits_bind; [apply emits_check_in_wallet | intros u3].
    + intros H. left. split; [reflexivity|]. left.
      destruct unittest'; [discriminate | reflexivity].
    + apply emits_bind; [apply emits_check_dust | intros a].
      apply emits_bind; [apply emits_divide_data | intros arr]. apply emits_ret.
  - intros [[a arr] t]. unfold transaction_build.
    apply emits_bind.
    + apply emits_get_inputs; intros H.
      * left. split; [reflexivity | left; exact H].
      * right. left. split; [exact H | reflexivity].
      * right. right. left. split; [exact H | reflexivity].
    + intros [[inputs tin]|]; [|apply emits_raise].
      apply emits_bind; [|intros tx; apply emits_ret].
      apply emits_serialise; intros Ht Hu Hs.
      * right. right. right. split; [exact Hu|]. split; [|reflexivity].
        destruct multisig as [| |s]; [discriminate | reflexivity | discriminate].
      * left. split; [reflexivity|]. right. split; [exact Hu|].
        destruct multisig as [| |s]; [discriminate | reflexivity | discriminate].
Qed.

(** ** The bitcoind client *)

Module NetProofs.
Import Net.

Section NEmits.
Variable P : nevent -> Prop.

Lemma nemits_ret {A} (a : A) : nemits P (nret a).
Proof. intros st. exists []. rewrite app_nil_r. split; [reflexivity | constructor]. Qed.

Lemma nemits_raise {A} (e : nexn) : nemits P (nraise (A:=A) e).
Proof. intros st. exists []. rewrite app_nil_r. split; [reflexivity | constructor]. Qed.

Lemma nemits_lift {A} (r : nres A) : nemits P (nlift r).
Proof. intros st. exists []. rewrite app_nil_r. split; [reflexivity | constructor]. Qed.

Lemma nemits_emit (e : nevent) : P e -> nemits P (nemit e).
Proof. intros He st. exists [e]. split; [reflexivity | constructor; [exact He | constructor]]. Qed.

Lemma nemits_bind {A B} (m : N A) (k : A -> N B) :
  nemits P m -> (forall a, nemits P (k a)) -> nemits P (nbind m k).
Proof.
  intros Hm Hk st. destruct (Hm st) as (n1 & E1 & F1). unfold nbind.
  destruct (m st) as [[a|e] st1]; simpl in E1.
  - destruct (Hk a st1) as (n2 & E2 & F2). exists (n1 ++ n2).
    rewrite E2, E1, app_assoc. split; [reflexivity | apply Forall_app; split; assumption].
  - exists n1. split; [exact E1 | exact F1].
Qed.

Lemma nemits_weaken (Q : nevent -> Prop) {A} (m : N A) :
  (forall e, P e -> Q e) -> nemits P m -> nemits Q m.
Proof.
  intros HPQ Hm st. destruct (Hm st) as (n & E & F). exists n.
  split; [exact E | eapply Forall_impl; [exact HPQ | exact F]].
Qed.

End NEmits.

Ltac nemits_auto :=
  repeat match goal with
  | |- nemits _ (nbind _ _) => apply nemits_bind; [|intros ?]
  | |- nemits _ ((fun _ => _) _) => cbv beta
  | |- nemits _ (nret _) => apply nemits_ret
  | |- nemits _ (nraise _) => apply nemits_raise
  | |- nemits _ (nlift _) => apply nemits_lift
  | |- nemits _ (nemit _) => apply nemits_emit
  | |- nemits _ (if ?b then _ else _) => destruct b
  | |- nemits _ (match ?x with _ => _ end) => destruct x
  end.

Lemma nemits_connect_loop (P : nevent -> Prop) server fuel i method params :
  P (Post method params) -> (forall t n, P (CouldNotConnect t n)) ->
  (forall n, P (Sleep n)) -> P Connected ->
  nemits P (connect_loop server fuel i method params).
Proof.
  intros H1 H2 H3 H4. revert i; induction fuel as [|f IH]; intros i; simpl.
  - apply nemits_ret.
  - apply nemits_bind.
    + intros st. exists [Post method params]. split; [reflexivity | repeat constructor; exact H1].
    + intros [r|]; nemits_auto; auto.
Qed.

Lemma state_eta st : st = {| posts := posts st; out := out st |}.
Proof. destruct st; reflexivity. Qed.

Lemma connect_loop_spec server method params fuel i st :
  (exists k response, (k < fuel)%nat /\
     (forall j, (j < k)%nat -> server (posts st + j)%nat method params = None) /\
     server (posts st + k)%nat method params = Some response /\
     connect_loop server fuel i method params st =
     (NOk (Some response),
      {| posts := (posts st + S k)%nat;
         out := out st ++ failed_tries method params i k ++ [Post method params] ++
                (if (0 <? i + k)%nat then [Connected] else []) |})) \/
  ((forall j, (j < fuel)%nat -> server (posts st + j)%nat method params = None) /\
   connect_loop server fuel i method params st =
   (NOk None, {| posts := (posts st + fuel)%nat; out := out st ++ failed_tries method params i fuel |})).
Proof.
  revert i st; induction fuel as [|f IH]; intros i st.
  - right. split; [intros; lia|]. simpl. unfold nret, failed_tries. simpl.
    rewrite Nat.add_0_r, app_nil_r. apply f_equal, state_eta.
  - cbn [connect_loop]. unfold nbind, post; cbv beta.
    destruct (server (posts st) method params) as [r|] eqn:E.
    + left. exists 0%nat, r. rewrite Nat.add_0_r.
      split; [lia|]. split; [intros; lia|]. split; [exact E|].
      unfold failed_tries. cbn [seq map List.concat]. rewrite Nat.add_0_r.
      destruct (0 <? i)%nat; unfold nbind, nemit, nret; simpl; rewrite <- ?app_assoc;
        repeat f_equal; lia.
    + unfold nbind, nemit. cbn [out posts].
      set (st2 := {| posts := S (posts st);
                     out := ((out st ++ [Post method params]) ++ [CouldNotConnect (S i) TRIES])
                            ++ [Sleep 5] |}).
      assert (Hfail : forall k, failed_tries method params i (S k) =
                        [Post method params; CouldNotConnect (S i) TRIES; Sleep 5]
                        ++ failed_tries method params (S i) k) by reflexivity.
      assert (Hout : out st2 = out st ++ [Post method params; CouldNotConnect (S i) TRIES; Sleep 5])
        by (simpl; rewrite <- !app_assoc; reflexivity).
      destruct (IH (S i) st2) as [(k & resp & Hk & Hnone & Hsome & Heq) | (Hnone & Heq)].
      * left. exists (S k), resp. rewrite Heq. simpl in Hnone, Hsome.
        split; [lia|]. split.
        { intros [|j] Hj; [rewrite Nat.add_0_r; exact E|].
          rewrite Nat.add_succ_r. apply Hnone. lia. }
        split; [rewrite Nat.add_succ_r; exact Hsome|].
        rewrite Hout, Hfail, <- !app_assoc. simpl posts.
        replace (i + S k)%nat with (S i + k)%nat by lia.
        f_equal; f_equal; try reflexivity; subst st2; simpl; lia.
      * right. rewrite Heq. simpl in Hnone. split.
        { intros [|j] Hj; [rewrite Nat.add_0_r; exact E|].
          rewrite Nat.add_succ_r. apply Hnone. lia. }
        rewrite Hout, Hfail, <- !app_assoc.
        f_equal; f_equal; try reflexivity; subst st2; simpl; lia.
Qed.

(** [connect] sends the request at most 12 times: it returns the first
    answer, after one failed try, a message and a five-second sleep per
    connection refused before it (and 'Successfully connected.' when there
    were such tries), and [None] when all 12 tries were refused. *)
Theorem connect_tries server method params st :
  (exists k response, (k < 12)%nat /\
     (forall j, (j < k)%nat -> server (posts st + j)%nat method params = None) /\
     server (posts st + k)%nat method params = Some response /\
     connect server method params st =
     (NOk (Some response),
      {| posts := (posts st + S k)%nat;
         out := out st ++ failed_tries method params 0 k ++ [Post method params] ++
                (if (0 <? k)%nat then [Connected] else []) |})) \/
  ((forall j, (j < 12)%nat -> server (posts st + j)%nat method params = None) /\
   connect server method params st =
   (NOk None, {| posts := (posts st + 12)%nat; out := out st ++ failed_tries method params 0 12 |})).
Proof. apply (connect_loop_spec server method params TRIES 0 st). Qed.

Lemma rpc_posts_spec cfg server fuel method params :
  nemits (fun e => match e with
                   | Post m p => (m = method /\ p = params) \/
                                 (exists a rest, params = a :: rest /\
                                                 m = "validateaddress"%string /\ p = [a])
                   | Stdout _ | Getpass => False
                   | _ => True
                   end)
         (rpc cfg server fuel method params).
Proof.
  revert method params; induction fuel as [|f IH]; intros method params; cbn [rpc].
  - apply nemits_raise.
  - apply nemits_bind.
    + unfold connect. apply nemits_connect_loop; auto.
    + intros [r|]; nemits_auto.
      eapply nemits_weaken; [|apply IH].
      intros [m p| | | | |]; auto.
      intros [[-> ->]|(a' & rest & Ha & -> & ->)]; right.
      * eexists _, _. split; [reflexivity|]. split; reflexivity.
      * injection Ha as -> ->. eexists _, _. split; [reflexivity|]. split; reflexivity.
Qed.

(** [rpc(method, params)] sends nothing but [method] with [params], and,
    on the error code -4, the nested [validateaddress] of [params[0]]; it
    prints nothing on stdout and never asks for a passphrase. *)
Theorem rpc_posts cfg server fuel method params :
  nemits (fun e => match e with
                   | Post m p => (m = method /\ p = params) \/
                                 (exists a rest, params = a :: rest /\
                                                 m = "validateaddress"%string /\ p = [a])
                   | Stdout _ | Getpass => False
                   | _ => True
                   end)
         (rpc cfg server fuel method params).
Proof. exact (rpc_posts_spec cfg server fuel method params). Qed.

Lemma connect_posts server method params st r st' :
  connect server method params st = (r, st') ->
  (exists k resp, (posts st <= k < posts st')%nat /\ r = NOk (Some resp) /\
                  server k method params = Some resp)
  \/ r = NOk None.
Proof.
  unfold connect. intros H.
  destruct (connect_loop_spec server method params TRIES 0 st)
    as [(k & resp & Hk & _ & Hs & Heq) | (_ & Heq)]; rewrite Heq in H; injection H as <- <-.
  - left. exists (posts st + k)%nat, resp. simpl. split; [lia|]. split; [reflexivity | exact Hs].
  - right. reflexivity.
Qed.

(** [rpc] returns a value only when the node answered the request itself
    with the status 200 or 500, a JSON dict with no [error] (or a null
    one), and the value as its [result]; every error answer, -4 included,
    ends in an exception. *)
Theorem rpc_ok cfg server fuel method params st v st' :
  rpc cfg server fuel method params st = (NOk v, st') ->
  exists n r j, (posts st <= n < posts st')%nat /\
    server n method params = Some r /\
    (status_code r = 200 \/ status_code r = 500) /\
    body r = Some j /\
    (has_key j "error" = NOk false \/ getitem j "error" = NOk JNull) /\
    getitem j "result" = NOk v.
Proof.
  destruct fuel as [|f]; [discriminate|]. cbn [rpc]. unfold nbind at 1.
  destruct (connect server method params st) as [c st1] eqn:Ec.
  destruct (connect_posts server method params st c st1 Ec)
    as [(k & resp & Hk & -> & Hs) | ->]; [|discriminate].
  destruct (negb ((status_code resp =? 200) || (status_code resp =? 500))) eqn:Hst;
    [discriminate|].
  destruct (body resp) as [j|] eqn:Hb; [|discriminate].
  intros H. exists k, resp, j.
  assert (Hst' : status_code resp = 200 \/ status_code resp = 500).
  { apply negb_false_iff, orb_true_iff in Hst. destruct Hst as [E|E]; apply Z.eqb_eq in E; auto. }
  unfold nbind, nlift, nret in H.
  destruct (has_key j "error") as [has|e] eqn:Hh; [|discriminate].
  destruct has; cbn [negb] in H.
  - destruct (getitem j "error") as [e|e] eqn:Hg; [|discriminate].
    destruct (is_null e) eqn:Hn.
    + destruct e; try discriminate. injection H as Hr <-.
      split; [lia|]. split; [exact Hs|]. split; [exact Hst'|]. split; [exact Hb|].
      split; [right; reflexivity|]. destruct (getitem j "result"); congruence.
    + exfalso. destruct (getitem e "code") as [code|e'] eqn:Hc; [|discriminate].
      destruct (py_eq_int code (-5)); [discriminate|].
      destruct (py_eq_int code (-4)); [|discriminate].
      destruct params as [|a rest]; [discriminate|].
      destruct (rpc cfg server f "validateaddress" [a] st1) as [[v'|e'] st2]; [|discriminate].
      destruct (getitem v' "ismine") as [mine|e'']; [|discriminate].
      destruct (truthy_json mine); discriminate.
  - injection H as Hr <-.
    split; [lia|]. split; [exact Hs|]. split; [exact Hst'|]. split; [exact Hb|].
    split; [left; reflexivity|]. destruct (getitem j "result"); congruence.
Qed.

Lemma rpc_ok_witness :
  exists n r j, (posts {| posts := 0; out := [] |} <= n <
                 posts (snd (rpc sample_config sample_server 1 "getblockcount" []
                               {| posts := 0; out := [] |})))%nat /\
    sample_server n "getblockcount" [] = Some r /\
    (status_code r = 200 \/ status_code r = 500) /\
    body r = Some j /\
    (has_key j "error" = NOk false \/ getitem j "error" = NOk JNull) /\
    getitem j "result" = NOk (JInt 7).
Proof.
  apply (rpc_ok sample_config sample_server 1 "getblockcount" [] {| posts := 0; out := [] |}
           (JInt 7)).
  vm_compute. reflexivity.
Defined.

(** The POST requests a completed [rpc] call appended to the events. *)
Lemma rpc_trace cfg server fuel method params st :
  exists new, out (snd (rpc cfg server fuel method params st)) = out st ++ new /\
    (forall m p, In (Post m p) new ->
       (m = method /\ p = params) \/
       (exists a rest, params = a :: rest /\ m = "validateaddress"%string /\ p = [a])) /\
    ~ In Getpass new.
Proof.
  destruct (rpc_posts_spec cfg server fuel method params st) as (new & E & F).
  exists new. split; [exact E|]. rewrite Forall_forall in F. split.
  - intros m p Hin. exact (F _ Hin).
  - intros Hin. exact (F _ Hin).
Qed.

Lemma nemits_bind_out {A B} (m : N A) (k : A -> N B) st :
  (forall a, nemits (fun _ => True) (k a)) ->
  exists more, out (snd (nbind m k st)) = out (snd (m st)) ++ more.
Proof.
  intros Hk. unfold nbind. destruct (m st) as [[a|e] st1]; simpl.
  - destruct (Hk a st1) as (more & E & _). exists more. exact E.
  - exists []. rewrite app_nil_r. reflexivity.
Qed.

(** A call with fuel left starts with the POST of its own request. *)
Lemma rpc_first_post cfg server fuel method params st :
  (0 < fuel)%nat ->
  exists rest, out (snd (rpc cfg server fuel method params st)) = out st ++ Post method params :: rest.
Proof.
  intros Hf. destruct fuel as [|f]; [lia|]. cbn [rpc].
  match goal with |- context [nbind (connect ?s ?m ?p) ?K] =>
    destruct (nemits_bind_out (connect s m p) K st) as (more & Hm) end.
  { intros [r|]; nemits_auto; try exact I.
    eapply nemits_weaken; [|apply rpc_posts_spec]. intros; exact I. }
  rewrite Hm.
  unfold connect.
  destruct (connect_loop_spec server method params TRIES 0 st)
    as [(k & resp & _ & _ & _ & Hc) | (_ & Hc)]; rewrite Hc; simpl out.
  - destruct k as [|k]; simpl.
    + eexists. rewrite <- app_assoc. reflexivity.
    + eexists. rewrite <- app_assoc. reflexivity.
  - eexists. rewrite <- app_assoc. reflexivity.
Qed.

Lemma in_trace_app (e : nevent) l new :
  In e (l ++ new) -> In e l \/ In e new.
Proof. apply in_app_or. Qed.

(** [transmit] asks the node to broadcast only after [signrawtransaction]
    of the unsigned transaction answered with a truthy [complete], and then
    broadcasts exactly the [hex] of that answer. *)
Theorem transmit_signed_only cfg server fuel unsigned_tx_hex st params :
  In (Post "sendrawtransaction" params) (out (snd (transmit cfg server fuel unsigned_tx_hex st))) ->
  In (Post "sendrawtransaction" params) (out st) \/
  exists result st1 complete signed_tx_hex,
    rpc cfg server fuel "signrawtransaction" [JStr unsigned_tx_hex] st = (NOk result, st1) /\
    getitem result "complete" = NOk complete /\ truthy_json complete = true /\
    getitem result "hex" = NOk signed_tx_hex /\ params = [signed_tx_hex].
Proof.
  unfold transmit, nbind, nlift, nret.
  destruct (rpc_trace cfg server fuel "signrawtransaction" [JStr unsigned_tx_hex] st)
    as (n1 & E1 & P1 & _).
  assert (Hno : forall l, out st = l -> In (Post "sendrawtransaction" params) (l ++ n1) ->
                In (Post "sendrawtransaction" params) (out st)).
  { intros l <- Hin. apply in_trace_app in Hin. destruct Hin as [Hin|Hin]; [exact Hin|].
    destruct (P1 _ _ Hin) as [[Hm _] | (a & rest & _ & Hm & _)]; discriminate. }
  destruct (rpc cfg server fuel "signrawtransaction" [JStr unsigned_tx_hex] st)
    as [[result|e] st1] eqn:Es; simpl in E1;
    [|intros Hin; left; apply (Hno (out st)); [reflexivity|]; rewrite <- E1; exact Hin].
  destruct (getitem result "complete") as [complete|e] eqn:Ec;
    [|intros Hin; left; apply (Hno (out st)); [reflexivity|]; rewrite <- E1; exact Hin].
  destruct (truthy_json complete) eqn:Ht; [|intros Hin; left; apply (Hno (out st)); [reflexivity|]; rewrite <- E1; exact Hin].
  destruct (getitem result "hex") as [h|e] eqn:Hh; [|intros Hin; left; apply (Hno (out st)); [reflexivity|]; rewrite <- E1; exact Hin].
  destruct (rpc_trace cfg server fuel "sendrawtransaction" [h] st1) as (n2 & E2 & P2 & _).
  intros Hin. assert (Hin' : In (Post "sendrawtransaction" params) (out st1 ++ n2)).
  { rewrite <- E2. destruct (rpc cfg server fuel "sendrawtransaction" [h] st1) as [[r|e] st2];
    exact Hin. }
  rewrite E1, <- app_assoc in Hin'. apply in_trace_app in Hin'.
  destruct Hin' as [Hin'|Hin']; [left; exact Hin'|].
  apply in_trace_app in Hin'. destruct Hin' as [Hin'|Hin'].
  - left. apply (Hno (out st)); [reflexivity|]. apply in_or_app. right. exact Hin'.
  - right. exists result, st1, complete, h. split; [reflexivity|]. split; [exact Ec|].
    split; [exact Ht|]. split; [exact Hh|].
    destruct (P2 _ _ Hin') as [[_ Hp] | (a & rest & _ & Hm & _)]; [exact Hp | discriminate].
Qed.

Lemma transmit_signed_only_witness :
  In (Post "sendrawtransaction" [JStr "abcd"])
     (out (snd (transmit sample_config sample_signer 1 "0100" {| posts := 0; out := [] |}))) /\
  (In (Post "sendrawtransaction" [JStr "abcd"]) (out {| posts := 0; out := [] |}) \/
   exists result st1 complete signed_tx_hex,
     rpc sample_config sample_signer 1 "signrawtransaction" [JStr "0100"] {| posts := 0; out := [] |}
       = (NOk result, st1) /\
     getitem result "complete" = NOk complete /\ truthy_json complete = true /\
     getitem result "hex" = NOk signed_tx_hex /\ [JStr "abcd"] = [signed_tx_hex]).
Proof.
  assert (H : In (Post "sendrawtransaction" [JStr "abcd"])
     (out (snd (transmit sample_config sample_signer 1 "0100" {| posts := 0; out := [] |}))))
    by (vm_compute; right; left; reflexivity).
  split; [exact H | exact (transmit_signed_only sample_config sample_signer 1 "0100"
                             {| posts := 0; out := [] |} [JStr "abcd"] H)].
Defined.

(** [wallet_unlock] never returns [False]: it returns [True] when [getinfo]
    has no [unlocked_until] or a positive one, and otherwise prompts for
    the passphrase, sends it with [walletpassphrase] for 60 seconds and
    returns [None]; it prompts in no other case. *)
Theorem wallet_unlock_prompt cfg server passphrase fuel st :
  let (r, st') := wallet_unlock cfg server passphrase fuel st in
  exists new, out st' = out st ++ new /\
    r <> NOk (Some false) /\
    (In Getpass new <->
     exists getinfo st1 u,
       rpc cfg server fuel "getinfo" [] st = (NOk getinfo, st1) /\
       py_in "unlocked_until" getinfo = NOk true /\
       getitem getinfo "unlocked_until" = NOk u /\ py_gt_zero u = NOk false) /\
    (r = NOk None -> In (Post "walletpassphrase" [JStr passphrase; JInt 60]) new).
Proof.
  unfold wallet_unlock, nbind, nlift, nret, nemit.
  destruct (rpc_trace cfg server fuel "getinfo" [] st) as (n1 & E1 & P1 & G1).
  destruct (rpc cfg server fuel "getinfo" [] st) as [[getinfo|e] st1] eqn:Eg; simpl in E1.
  2:{ exists n1. split; [exact E1|]. split; [discriminate|]. split; [|discriminate].
      split; [intros H; contradiction | intros (g & s1 & u & H & _); discriminate]. }
  destruct (py_in "unlocked_until" getinfo) as [has|e] eqn:Hin.
  2:{ exists n1. split; [exact E1|]. split; [discriminate|]. split; [|discriminate].
      split; [intros H; contradiction|].
      intros (g & s1 & u & H & H2 & _). injection H as <- _. congruence. }
  destruct has; cbn [negb].
  2:{ exists n1. split; [exact E1|]. split; [discriminate|]. split; [|discriminate].
      split; [intros H; contradiction|].
      intros (g & s1 & u & H & H2 & _). injection H as <- _. congruence. }
  destruct (getitem getinfo "unlocked_until") as [u|e] eqn:Hu.
  2:{ exists n1. split; [exact E1|]. split; [discriminate|]. split; [|discriminate].
      split; [intros H; contradiction|].
      intros (g & s1 & u & H & H2 & H3 & _). injection H as <- _. congruence. }
  destruct (py_gt_zero u) as [positive|e] eqn:Hp.
  2:{ exists n1. split; [exact E1|]. split; [discriminate|]. split; [|discriminate].
      split; [intros H; contradiction|].
      intros (g & s1 & u' & H & H2 & H3 & H4). injection H as <- _. congruence. }
  destruct positive.
  { exists n1. split; [exact E1|]. split; [discriminate|]. split; [|discriminate].
    split; [intros H; contradiction|].
    intros (g & s1 & u' & H & H2 & H3 & H4). injection H as <- _. congruence. }
  cbn [posts out]. set (st2 := {| posts := posts st1;
                 out := ((out st1 ++ [Stdout "Wallet is locked."]) ++ [Getpass])
                        ++ [Stdout "Unlocking wallet for 60 seconds."] |}).
  destruct (rpc_trace cfg server fuel "walletpassphrase" [JStr passphrase; JInt 60] st2)
    as (n2 & E2 & P2 & G2).
  assert (Hpre : out st2 = out st ++ n1 ++
                 [Stdout "Wallet is locked."; Getpass; Stdout "Unlocking wallet for 60 seconds."])
    by (subst st2; simpl; rewrite E1, <- !app_assoc; reflexivity).
  assert (Hnew : out (snd (rpc cfg server fuel "walletpassphrase" [JStr passphrase; JInt 60] st2))
                 = out st ++ (n1 ++ [Stdout "Wallet is locked."; Getpass;
                                     Stdout "Unlocking wallet for 60 seconds."]) ++ n2)
    by (rewrite E2, Hpre, <- !app_assoc; reflexivity).
  destruct (rpc cfg server fuel "walletpassphrase" [JStr passphrase; JInt 60] st2)
    as [[v|e] st3] eqn:Ew; simpl in Hnew; eexists; (split; [exact Hnew|]).
  - split; [discriminate|]. split.
    + split; [intros _ | intros _; apply in_or_app; left; apply in_or_app; right; simpl; auto].
      exists getinfo, st1, u. repeat split; assumption.
    + intros _. apply in_or_app. right.
      assert (Hf : (0 < fuel)%nat) by (destruct fuel; [discriminate | lia]).
      destruct (rpc_first_post cfg server fuel "walletpassphrase" [JStr passphrase; JInt 60] st2 Hf)
        as (rest & E3).
      rewrite Ew in E3. simpl in E2, E3. rewrite E3 in E2. apply app_inv_head in E2. subst n2.
      left. reflexivity.
  - split; [discriminate|]. split.
    + split; [intros _ | intros _; apply in_or_app; left; apply in_or_app; right; simpl; auto].
      exists getinfo, st1, u. repeat split; assumption.
    + discriminate.
Qed.

End NetProofs.
